(** * circadian-hue: the Circadian Hue switch, embedded and verified

    A shallow embedding of [custom_components/circadian_hue/switch.py]:
    the toggle entity, the desired-light-state computation, the per-bridge
    update and the guarded poll cycle, with the properties the specification
    states about them.

    Conventions of the embedding.
    - The xy chromaticity coordinates and the tolerance [0.02] are binary64
      floats ([PrimFloat]), compared as Python compares them.  The colour
      sensor's percentage is read as an exact rational [Q] in
      [get_lightstate]; [brightness_float] is the same computation on
      binary64 floats.  Python [int]s (brightness, transition time) are [Z].
    - A Python dict that is iterated is an association list in insertion
      order; a dict whose optional key is tested with [in] is a record with
      an [option] field.
    - Code that can raise returns [result]; code that talks to the bridge
      runs in the trace monad [M], which records every call made to the
      bridge in order and stops at the first exception. *)

From Stdlib Require Import List String ZArith QArith Bool Lia Lqa Floats.
Import ListNotations.

#[local] Set Warnings "-inexact-float".

Local Open Scope string_scope.
Local Open Scope list_scope.
Local Open Scope Z_scope.

(** ** Exceptions and results *)

Inductive exn : Type :=
| KeyError        (* a dict or mapping lookup of an absent key *)
| AttributeError  (* attribute access on [None] *)
| RuntimeError    (* releasing an unlocked [threading.Lock] *)
| RequestError.   (* an exception of the bridge client other than the two
                     that [update_api] catches *)

Inductive result (A : Type) : Type :=
| Ok (a : A)
| Raise (e : exn).
Arguments Ok {A} a.
Arguments Raise {A} e.

Definition of_option {A} (e : exn) (o : option A) : result A :=
  match o with Some a => Ok a | None => Raise e end.

Definition rbind {A B} (r : result A) (f : A -> result B) : result B :=
  match r with Ok a => f a | Raise e => Raise e end.

(** [xs.map(f)] where [f] may raise: the first exception wins. *)
Fixpoint map_result {A B} (f : A -> result B) (xs : list A) : result (list B) :=
  match xs with
  | [] => Ok []
  | x :: rest =>
      rbind (f x) (fun y => rbind (map_result f rest) (fun ys => Ok (y :: ys)))
  end.

(** A [for] loop threading an accumulator through a body that may raise. *)
Fixpoint fold_result {A S} (f : S -> A -> result S) (s : S) (xs : list A)
  : result S :=
  match xs with
  | [] => Ok s
  | x :: rest => rbind (f s x) (fun s' => fold_result f s' rest)
  end.

(** ** Bridge data: lights and scenes *)

(** The state dict of a light, live ([light.state]) or stored in a scene
    ([lightstates[id]]): the keys [on], [bri] and [xy], each of which may be
    missing (an on/off plug has no [bri], a white light no [xy]). *)
Record LightState : Type := {
  st_on : option bool;
  st_bri : option Z;
  st_xy : option (float * float)
}.

Record Light : Type := {
  light_id : string;
  light_state : LightState
}.

Record Scene : Type := {
  scene_id : string;
  scene_name : string;
  scene_lights : list string
}.

Record Group : Type := {
  group_lights : list string
}.

(** [bridge.api.lights[id]] and [bridge.api.scenes[id]]. *)
Definition lookup_light (id : string) (lights : list Light) : option Light :=
  find (fun l => String.eqb (light_id l) id) lights.

Definition lookup_scene (id : string) (scenes : list Scene) : option Scene :=
  find (fun s => String.eqb (scene_id s) id) scenes.

(** ** [is_circadian_scene] *)

Definition mem (x : string) (xs : list string) : bool :=
  existsb (String.eqb x) xs.

(** [set(a) == set(b)]. *)
Definition set_eq (a b : list string) : bool :=
  forallb (fun x => mem x b) a && forallb (fun x => mem x a) b.

Definition is_circadian_scene (group : Group) (scene : Scene) : bool :=
  set_eq (group_lights group) (scene_lights scene)
  && String.eqb (scene_name scene) "Circadian".

(** ** Values sent to the bridge *)

Inductive value : Type :=
| VBool (b : bool)
| VInt (n : Z)
| VXy (xy : float * float).

(** A partial light state: the keyword arguments of [set_state], or one entry
    of a scene's [lightstates]. *)
Definition patch : Type := list (string * value).

Definition lookup {V} (k : string) (d : list (string * V)) : option V :=
  match find (fun kv => String.eqb (fst kv) k) d with
  | Some kv => Some (snd kv)
  | None => None
  end.

(** [d[k] = v]: overwrite in place, or append a new key. *)
Fixpoint dict_set {V} (k : string) (v : V) (d : list (string * V))
  : list (string * V) :=
  match d with
  | [] => [(k, v)]
  | (k', v') :: rest =>
      if String.eqb k' k then (k, v) :: rest else (k', v') :: dict_set k v rest
  end.

(** [{key: value for key, value in d.items() if value is not None}]. *)
Fixpoint drop_none {V} (d : list (string * option V)) : list (string * V) :=
  match d with
  | [] => []
  | (k, Some v) :: rest => (k, v) :: drop_none rest
  | (_, None) :: rest => drop_none rest
  end.

(** ** The host platform's shared state *)

(** The published reading of [sensor.circadian_values]: its [xy_color]
    attribute and its state, already read as a number. *)
Record CircadianValues : Type := {
  xy_color : float * float;
  percent : Q
}.

(** ** Desired light state: [get_lightstate] *)

Definition Qgtb (x y : Q) : bool := negb (Qle_bool x y).

(** Python's [int(x)] on a number: truncation towards zero. *)
Definition py_int (x : Q) : Z := Z.quot (Qnum x) (Z.pos (Qden x)).

(** The local [brightness] of [get_lightstate], the percentage read as an
    exact rational. *)
Definition brightness (percent : Q) : Q :=
  if Qgtb percent 0 then 255
  else 255 * ((100 + percent) / 100).


Definition has_xy (s : LightState) : bool :=
  match st_xy s with Some _ => true | None => false end.

(** The dict built for one light. *)
Definition light_data (xy_color : float * float) (brightness : Q)
           (set_brightness : bool) (light : Light) : patch :=
  drop_none
    [ ("on", Some (VBool true));
      ("xy", if has_xy (light_state light) then Some (VXy xy_color) else None);
      ("bri", if set_brightness then Some (VInt (py_int brightness)) else None);
      ("transitiontime", Some (VInt 20)) ].

Fixpoint fill_out (xy_color : float * float) (brightness : Q)
         (set_brightness : bool)
         (lights : list Light) (out : list (string * patch))
  : list (string * patch) :=
  match lights with
  | [] => out
  | light :: rest =>
      fill_out xy_color brightness set_brightness rest
        (dict_set (light_id light)
                  (light_data xy_color brightness set_brightness light) out)
  end.

(** [self.hass.states.get('sensor.circadian_values')] is [None] when the
    sensor is not published; reading [.attributes] of it then raises. *)
Definition get_lightstate (sensor : option CircadianValues)
           (lights : list Light) (set_brightness : bool)
  : result (list (string * patch)) :=
  rbind (of_option AttributeError sensor) (fun reading =>
    let xy_color := xy_color reading in
    let percent := percent reading in
    Ok (fill_out xy_color (brightness percent) set_brightness lights [])).

(** ** The switch entity *)

Record CircadianHueSwitch : Type := {
  lock : bool;            (* the [threading.Lock]: [true] while held *)
  _name : string;
  _state : option bool    (* [None], [True] or [False] *)
}.

Definition set_state_field (v : option bool) (self : CircadianHueSwitch)
  : CircadianHueSwitch :=
  {| lock := lock self; _name := _name self; _state := v |}.

Definition set_lock (v : bool) (self : CircadianHueSwitch)
  : CircadianHueSwitch :=
  {| lock := v; _name := _name self; _state := _state self |}.

(** What the entity asks of the host platform. *)
Inductive host_call : Type :=
| ScheduleUpdateHaState
| AsyncGetLastState.

Definition is_on (self : CircadianHueSwitch) : option bool := _state self.

(** Python truthiness of [None], [True], [False]. *)
Definition truthy (v : option bool) : bool :=
  match v with Some true => true | _ => false end.

Definition turn_on (self : CircadianHueSwitch) : CircadianHueSwitch :=
  set_state_field (Some true) self.

Definition turn_off (self : CircadianHueSwitch)
  : CircadianHueSwitch * list host_call :=
  (set_state_field (Some false) self, [ScheduleUpdateHaState]).

Definition STATE_ON : string := "on".

(** [last_state] is what [async_get_last_state()] answers: [None], or a
    state object whose [.state] is the given string.  [state and e] is
    [state] itself when [state] is [None]. *)
Definition async_added_to_hass (self : CircadianHueSwitch)
           (last_state : option string)
  : CircadianHueSwitch * list host_call :=
  match _state self with
  | Some _ => (self, [])
  | None =>
      let state := last_state in
      (set_state_field
         (match state with
          | None => None
          | Some s => Some (String.eqb s STATE_ON)
          end) self,
       [AsyncGetLastState])
  end.

(** ** Calls to the bridge, and the trace monad *)

Inductive resource : Type := Scenes | Lights.
Inductive method : Type := GET | PUT.

(** The JSON body of the scene update: [{'lightstates': state}]. *)
Definition payload : Type := list (string * list (string * patch)).

Inductive event : Type :=
| ApiUpdate (r : resource)
| Request (m : method) (path : string) (json : option payload)
| SetState (light : string) (fields : patch).

Definition M (A : Type) : Type := (list event * result A)%type.

Definition ret {A} (a : A) : M A := ([], Ok a).
Definition raise {A} (e : exn) : M A := ([], Raise e).
Definition emit (e : event) : M unit := ([e], Ok tt).
Definition lift {A} (r : result A) : M A := ([], r).

Definition bind {A B} (m : M A) (f : A -> M B) : M B :=
  match m with
  | (t, Ok a) => let (t', r) := f a in (t ++ t', r)
  | (t, Raise e) => (t, Raise e)
  end.

Notation "x <- m ;; k" := (bind m (fun x => k))
  (at level 61, m at next level, right associativity).
Notation "' pat <- m ;; k" := (bind m (fun x => match x with pat => k end))
  (at level 61, pat pattern, m at next level, right associativity).
Notation "m ;; k" := (bind m (fun _ => k))
  (at level 61, right associativity).

Definition trace {A} (m : M A) : list event := fst m.
Definition outcome {A} (m : M A) : result A := snd m.

(** A [for] loop whose body talks to the bridge. *)
Fixpoint for_each {A} (xs : list A) (body : A -> M unit) : M unit :=
  match xs with
  | [] => ret tt
  | x :: rest => body x ;; for_each rest body
  end.

(** The exceptions among the outcomes of a list of coroutines. *)
Fixpoint failures (rs : list (result unit)) : list exn :=
  match rs with
  | [] => []
  | Ok _ :: rest => failures rest
  | Raise e :: rest => e :: failures rest
  end.

(** [asyncio.gather] over a list of coroutines: every coroutine is started,
    so every call is made, in list order.  When some fail, the exception
    raised is the one that arrives first in time; [arrival] says which of
    the failing coroutines that is. *)
Definition gather (arrival : nat) (coros : list (M unit)) : M unit :=
  (flat_map trace coros,
   match failures (map outcome coros) with
   | [] => Ok tt
   | e :: es => Raise (nth arrival (e :: es) e)
   end).

(** ** The bridge collaborator *)

Inductive update_failure : Type :=
| TimeoutError
| AiohueException
| OtherException.

Inductive update_outcome (A : Type) : Type :=
| Updated (items : A)
| UpdateFailed (f : update_failure).
Arguments Updated {A} items.
Arguments UpdateFailed {A} f.

(** The body of a scene detail response. *)
Record SceneDetail : Type := {
  lightstates : list (string * LightState)
}.

(** [bridge.api]: the two caches as they stand when the cycle starts, and
    what the bridge answers during the cycle. *)
Record Api : Type := {
  scenes : list Scene;
  lights : list Light;
  scenes_update : update_outcome (list Scene);
  lights_update : update_outcome (list Light);
  get_response : string -> result SceneDetail;
  put_response : string -> result unit;
  set_state_response : string -> result unit;
  first_arrival : nat   (* which failing [set_state] answers first *)
}.

Record HueBridge : Type := {
  host : string;
  api : option Api
}.

(** [update_api]: the refreshed cache is returned beside the boolean; after a
    caught failure the cache is the one from before. *)
Definition update_api {A} (r : resource) (cache : A)
           (answer : update_outcome A) : M (bool * A) :=
  emit (ApiUpdate r) ;;
  match answer with
  | Updated items => ret (true, items)
  | UpdateFailed TimeoutError => ret (false, cache)
  | UpdateFailed AiohueException => ret (false, cache)
  | UpdateFailed OtherException => raise RequestError
  end.

Definition scene_path (scene_id : string) : string :=
  String.append "scenes/" scene_id.

Definition request_get (a : Api) (path : string) : M SceneDetail :=
  emit (Request GET path None) ;; lift (get_response a path).

Definition request_put (a : Api) (path : string) (json : payload) : M unit :=
  emit (Request PUT path (Some json)) ;; lift (put_response a path).

Definition set_state (a : Api) (light : Light) (fields : patch) : M unit :=
  emit (SetState (light_id light) fields) ;;
  lift (set_state_response a (light_id light)).

(** ** Per-bridge update: [update_bridge] *)

(** The tolerance [0.02] of the xy comparison, and the comparison
    [abs(a - b) > 0.02] itself, on binary64 floats. *)
Definition xy_tolerance : float := 0.02%float.

Definition xy_differs (a b : float) : bool :=
  PrimFloat.ltb xy_tolerance (PrimFloat.abs (PrimFloat.sub a b)).

(** One pass of the loop over [current_scene_state['lightstates'].items()];
    the accumulator is [(is_current_scene, brightness_changed)].  Every
    subscript of a missing key raises [KeyError].  Both xy comparisons read
    [state['xy'][0]], as the source does. *)
Definition compare_light (lights : list Light) (acc : bool * bool)
           (item : string * LightState) : result (bool * bool) :=
  let '(is_current_scene, brightness_changed) := acc in
  let '(light_id, state) := item in
  rbind (of_option KeyError (lookup_light light_id lights)) (fun light =>
    let current_state := light_state light in
    rbind (of_option KeyError (st_on current_state)) (fun current_on =>
    rbind (of_option KeyError (st_on state)) (fun state_on =>
    let is_current_scene :=
      if negb (Bool.eqb current_on state_on)
      then false else is_current_scene in
    rbind (of_option KeyError (st_bri current_state)) (fun current_bri =>
    rbind (of_option KeyError (st_bri state)) (fun state_bri =>
    let brightness_changed :=
      if 5 <? Z.abs (current_bri - state_bri)
      then true else brightness_changed in
    match st_xy current_state with
    | None => Ok (is_current_scene, brightness_changed)
    | Some current_xy =>
        rbind (of_option KeyError (st_xy state)) (fun state_xy =>
          let is_current_scene :=
            if xy_differs (fst current_xy) (fst state_xy)
               || xy_differs (snd current_xy) (fst state_xy)
            then false else is_current_scene in
          Ok (is_current_scene, brightness_changed))
    end))))).

Definition compare_lights (lights : list Light)
           (lightstates : list (string * LightState)) : result (bool * bool) :=
  fold_result (compare_light lights) (true, false) lightstates.

(** [list(map(lambda id: bridge.api.lights[id], scene.lights))]. *)
Definition member_lights (lights : list Light) (scene : Scene)
  : result (list Light) :=
  map_result (fun id => of_option KeyError (lookup_light id lights))
             (scene_lights scene).

(** The body of the loop over the scene cache, for one [scene_id]. *)
Definition update_scene (sensor : option CircadianValues) (a : Api)
           (scenes : list Scene) (lights : list Light) (scene_id : string)
  : M unit :=
  scene <- lift (of_option KeyError (lookup_scene scene_id scenes)) ;;
  if negb (String.eqb (scene_name scene) "Circadian") then ret tt
  else
    current_scene_state <- request_get a (scene_path scene_id) ;;
    '(is_current_scene, brightness_changed) <-
       lift (compare_lights lights (lightstates current_scene_state)) ;;
    members <- lift (member_lights lights scene) ;;
    state <- lift (get_lightstate sensor members true) ;;
    let data := drop_none [("lightstates", Some state)] in
    request_put a (scene_path scene_id) data ;;
    if is_current_scene then
      state <- lift (get_lightstate sensor members
                                    (negb brightness_changed)) ;;
      coros <- lift (map_result
                       (fun item : string * patch =>
                          rbind (of_option KeyError
                                           (lookup_light (fst item) lights))
                                (fun light => Ok (set_state a light (snd item))))
                       state) ;;
      gather (first_arrival a) coros
    else ret tt.

Definition update_scenes (sensor : option CircadianValues) (a : Api)
           (scenes : list Scene) (lights : list Light) : M unit :=
  for_each (map scene_id scenes) (update_scene sensor a scenes lights).

(** [update_bridge] answers [False] ([Some false]) when the switch is not on
    and [None] otherwise. *)
Definition update_bridge (self : CircadianHueSwitch)
           (sensor : option CircadianValues) (bridge : HueBridge)
  : M (option bool) :=
  match _state self with
  | Some true =>
      a <- lift (of_option AttributeError (api bridge)) ;;
      '(_, scenes) <- update_api Scenes (scenes a) (scenes_update a) ;;
      '(available, lights) <- update_api Lights (lights a) (lights_update a) ;;
      if negb available then ret None
      else
        update_scenes sensor a scenes lights ;;
        ret None
  | _ => ret (Some false)
  end.

(** ** Poll cycle: [async_update_info] *)

(** An entry of [hass.data[hue.DOMAIN]]. *)
Inductive hue_entry : Type :=
| BridgeEntry (b : HueBridge)
| OtherEntry.

Record Hass : Type := {
  circadian_values : option CircadianValues;  (* [states.get(...)] *)
  hue_data : option (list hue_entry);         (* [data[hue.DOMAIN]] *)
  loop_schedule : list nat                    (* [hass.loop]: the order in
                                                 which it resumes tasks *)
}.

Definition get_bridges (hass : Hass) : result (list HueBridge) :=
  rbind (of_option KeyError (hue_data hass)) (fun entries =>
    Ok (flat_map
          (fun entry =>
             match entry with
             | BridgeEntry b =>
                 match api b with Some _ => [b] | None => [] end
             | OtherEntry => []
             end)
          entries)).

(** What one poll cycle does: it sleeps, or it calls a bridge. *)
Inductive poll_event : Type :=
| Sleep (seconds : Z)
| OnBridge (host : string) (e : event).

Record Poll : Type := {
  poll_self : CircadianHueSwitch;
  poll_trace : list poll_event;
  poll_result : result unit
}.

(** [self.lock.acquire(False)] and [self.lock.release()]. *)
Definition lock_acquire_nonblocking (self : CircadianHueSwitch)
  : bool * CircadianHueSwitch :=
  if lock self then (false, self) else (true, set_lock true self).

Definition lock_release (self : CircadianHueSwitch)
  : result CircadianHueSwitch :=
  if lock self then Ok (set_lock false self) else Raise RuntimeError.

(** The next call of the [i]-th task, if it has one left. *)
Fixpoint pop {A} (i : nat) (tasks : list (list A))
  : option (A * list (list A)) :=
  match tasks, i with
  | [], _ => None
  | [] :: _, O => None
  | (x :: t) :: rest, O => Some (x, t :: rest)
  | t :: rest, S j =>
      match pop j rest with
      | Some (x, rest') => Some (x, t :: rest')
      | None => None
      end
  end.

(** The calls of concurrent tasks in the order the event loop lets them
    happen: each step of the schedule names the task that makes its next
    call (a step naming a task with no call left is skipped); the calls
    left when the schedule ends follow task by task.  Every interleaving
    that keeps each task's own order is the result of some schedule. *)
Fixpoint interleave {A} (schedule : list nat) (tasks : list (list A))
  : list A :=
  match schedule with
  | [] => List.concat tasks
  | i :: later =>
      match pop i tasks with
      | Some (x, tasks') => x :: interleave later tasks'
      | None => interleave later tasks
      end
  end.

(** [asyncio.wait] over one task per bridge: the tasks run concurrently, in
    no fixed order; it returns when all are done and raises nothing, a
    task's exception stays in the task. *)
Definition asyncio_wait (schedule : list nat)
           (tasks : list (string * M (option bool))) : list poll_event :=
  interleave schedule
    (map (fun task => map (OnBridge (fst task)) (trace (snd task))) tasks).

(** The [try] block. *)
Definition poll_body (self : CircadianHueSwitch) (hass : Hass)
           (now : option Z) : list poll_event * result unit :=
  match get_bridges hass with
  | Raise e => ([], Raise e)
  | Ok [] =>
      match now with
      | Some _ => ([Sleep 5], Ok tt)
      | None => ([], Ok tt)
      end
  | Ok bridges =>
      (asyncio_wait
         (loop_schedule hass)
         (map (fun bridge =>
                 (host bridge,
                  update_bridge self (circadian_values hass) bridge))
              bridges),
       Ok tt)
  end.

(** The [finally] clause: whatever the [try] block did, the lock is
    released; the block's exception, if any, is raised again after it. *)
Definition finally_release (self : CircadianHueSwitch)
           (body : list poll_event * result unit) : Poll :=
  let (t, r) := body in
  match lock_release self with
  | Ok self' => {| poll_self := self'; poll_trace := t; poll_result := r |}
  | Raise e => {| poll_self := self; poll_trace := t; poll_result := Raise e |}
  end.

Definition async_update_info (self : CircadianHueSwitch) (hass : Hass)
           (now : option Z) : Poll :=
  let (locked, self) := lock_acquire_nonblocking self in
  if negb locked then
    {| poll_self := self; poll_trace := []; poll_result := Ok tt |}
  else
    finally_release self (poll_body self hass now).

(** [CircadianHueSwitch.__init__], and the first poll that
    [async_setup_platform] awaits before the entity is added. *)
Definition new_switch (name : string) : CircadianHueSwitch :=
  {| lock := false; _name := name; _state := None |}.

Definition async_setup_platform (hass : Hass) (name : string) : Poll :=
  async_update_info (new_switch name) hass None.

(** ** Predicates the properties are stated with *)

Definition present {A} (o : option A) : bool :=
  match o with Some _ => true | None => false end.

(** An entry of [lightstates] the comparison loop can read without a
    [KeyError]: its light is in the light cache, the live and the stored
    state both have [on] and [bri], and the stored state has an xy field if
    the live state has one (the loop reads [state['xy']] for every live
    xy). *)
Definition comparable (lights : list Light) (item : string * LightState)
  : bool :=
  match lookup_light (fst item) lights with
  | None => false
  | Some light =>
      present (st_on (light_state light)) && present (st_on (snd item))
      && present (st_bri (light_state light)) && present (st_bri (snd item))
      && (negb (present (st_xy (light_state light)))
          || present (st_xy (snd item)))
  end.

(** Live and stored on/off agree. *)
Definition on_matches (current stored : LightState) : Prop :=
  st_on current = st_on stored.

(** No xy divergence on the checked coordinates: neither live coordinate
    differs from the stored x-coordinate by more than the tolerance, in the
    comparison the code makes. *)
Definition xy_within (current stored : LightState) : Prop :=
  forall cxy sxy,
    st_xy current = Some cxy -> st_xy stored = Some sxy ->
    xy_differs (fst cxy) (fst sxy) = false /\
    xy_differs (snd cxy) (fst sxy) = false.

(** Live and stored brightness differ by more than 5. *)
Definition bri_diverges (current stored : LightState) : Prop :=
  exists current_bri stored_bri,
    st_bri current = Some current_bri /\
    st_bri stored = Some stored_bri /\
    5 < Z.abs (current_bri - stored_bri).

(** The stored states with other brightness values. *)
Definition with_bri (bri : string -> Z) (item : string * LightState)
  : string * LightState :=
  (fst item,
   {| st_on := st_on (snd item);
      st_bri := Some (bri (fst item));
      st_xy := st_xy (snd item) |}).

(** The two tests of one loop pass, as booleans. *)
Definition item_active (lights : list Light) (item : string * LightState)
  : bool :=
  match lookup_light (fst item) lights with
  | None => true
  | Some light =>
      match st_on (light_state light), st_on (snd item) with
      | Some current_on, Some state_on => Bool.eqb current_on state_on
      | _, _ => true
      end
      && match st_xy (light_state light), st_xy (snd item) with
         | Some cxy, Some sxy =>
             negb (xy_differs (fst cxy) (fst sxy)
                   || xy_differs (snd cxy) (fst sxy))
         | _, _ => true
         end
  end.

Definition item_bri_changed (lights : list Light)
           (item : string * LightState) : bool :=
  match lookup_light (fst item) lights with
  | None => false
  | Some light =>
      match st_bri (light_state light), st_bri (snd item) with
      | Some current_bri, Some state_bri =>
          5 <? Z.abs (current_bri - state_bri)
      | _, _ => false
      end
  end.

(** The scene cache the loop of [update_bridge] runs over: the refreshed one,
    or the one from before when the refresh failed. *)
Definition scenes_after (a : Api) : list Scene :=
  match scenes_update a with
  | Updated items => items
  | UpdateFailed _ => scenes a
  end.

(** The [set_state] calls for a computed state, in dict order. *)
Definition set_state_events (state : list (string * patch)) : list event :=
  map (fun item => SetState (fst item) (snd item)) state.

(** The coroutine [set_state] builds for one entry of the computed state. *)
Definition set_state_coro (a : Api) (item : string * patch) : M unit :=
  emit (SetState (fst item) (snd item)) ;;
  lift (set_state_response a (fst item)).




(** ** A bridge to run the model on

    One scene named "Circadian" over the lights A and B, both stored on at
    brightness 200; A is live at brightness 150, B at 200; no xy on either. *)

Definition example_stored : LightState :=
  {| st_on := Some true; st_bri := Some 200; st_xy := None |}.

Definition example_lights : list Light :=
  [ {| light_id := "A";
       light_state :=
         {| st_on := Some true; st_bri := Some 150; st_xy := None |} |};
    {| light_id := "B";
       light_state :=
         {| st_on := Some true; st_bri := Some 200; st_xy := None |} |} ].

Definition example_lightstates : list (string * LightState) :=
  [("A", example_stored); ("B", example_stored)].

Definition example_scene : Scene :=
  {| scene_id := "s1"; scene_name := "Circadian";
     scene_lights := ["A"; "B"] |}.

Definition example_api_answering
           (scenes_answer : update_outcome (list Scene))
           (lights_answer : update_outcome (list Light)) : Api :=
  {| scenes := [example_scene];
     lights := example_lights;
     scenes_update := scenes_answer;
     lights_update := lights_answer;
     get_response := fun _ => Ok {| lightstates := example_lightstates |};
     put_response := fun _ => Ok tt;
     set_state_response := fun _ => Ok tt;
     first_arrival := 0 |}.

Definition example_api : Api :=
  example_api_answering (Updated [example_scene]) (Updated example_lights).

Definition example_bridge_with (a : Api) : HueBridge :=
  {| host := "192.168.1.2"; api := Some a |}.

Definition example_bridge : HueBridge := example_bridge_with example_api.

(** A light group that is not the example scene's member set. *)
Definition example_group : Group := {| group_lights := ["A"; "B"; "C"] |}.

Definition example_reading : CircadianValues :=
  {| xy_color := (0.45%float, 0.41%float); percent := (-40)%Q |}.

Definition example_switch (locked : bool) (state : option bool)
  : CircadianHueSwitch :=
  {| lock := locked; _name := "Circadian Hue"; _state := state |}.

Definition example_hass (entries : option (list hue_entry)) : Hass :=
  {| circadian_values := Some example_reading;
     hue_data := entries;
     loop_schedule := [] |}.

(** ** Further predicates and data *)

(** The calls that change the bridge: the scene update and [set_state]. *)
Definition is_write (e : event) : bool :=
  match e with
  | Request PUT _ _ => true
  | SetState _ _ => true
  | _ => false
  end.

(** A dict without one key. *)
Definition without_key {V} (k : string) (d : list (string * V))
  : list (string * V) :=
  filter (fun kv => negb (String.eqb (fst kv) k)) d.

(** The last light of a list with the given id. *)
Definition last_light (id : string) (lights : list Light) : option Light :=
  find (fun l => String.eqb (light_id l) id) (rev lights).

(** A colour light whose live xy is the stored xy, away from the diagonal. *)
Definition example_colour_state : LightState :=
  {| st_on := Some true; st_bri := Some 200;
     st_xy := Some (0.45%float, 0.41%float) |}.

Definition example_colour_lights : list Light :=
  [ {| light_id := "C"; light_state := example_colour_state |} ].

(** A colour light near the diagonal, live at (0.45, 0.44) and stored at
    (0.44, 0.40), beside the light A whose brightness was changed. *)
Definition example_mixed_lights : list Light :=
  [ {| light_id := "A";
       light_state :=
         {| st_on := Some true; st_bri := Some 150; st_xy := None |} |};
    {| light_id := "D";
       light_state :=
         {| st_on := Some true; st_bri := Some 200;
            st_xy := Some (0.45%float, 0.44%float) |} |} ].

Definition example_mixed_lightstates : list (string * LightState) :=
  [ ("A", example_stored);
    ("D", {| st_on := Some true; st_bri := Some 200;
             st_xy := Some (0.44%float, 0.40%float) |}) ].

(** A bridge whose scene refresh fails with an exception [update_api] does
    not catch. *)
Definition example_broken_bridge : HueBridge :=
  {| host := "192.168.1.3";
     api := Some (example_api_answering (UpdateFailed OtherException)
                                        (Updated example_lights)) |}.

(** A second scene named "Circadian", and a bridge that lists it after a
    scene whose detail request fails. *)
Definition example_scene2 : Scene :=
  {| scene_id := "s2"; scene_name := "Circadian"; scene_lights := ["B"] |}.

Definition example_api_failing_detail : Api :=
  {| scenes := [example_scene; example_scene2];
     lights := example_lights;
     scenes_update := Updated [example_scene; example_scene2];
     lights_update := Updated example_lights;
     get_response := fun path =>
       if String.eqb path "scenes/s1" then Raise RequestError
       else Ok {| lightstates := [("B", example_stored)] |};
     put_response := fun _ => Ok tt;
     set_state_response := fun _ => Ok tt;
     first_arrival := 0 |}.

(** The same two scenes on a bridge that answers every request. *)
Definition example_api_two_scenes : Api :=
  {| scenes := [example_scene; example_scene2];
     lights := example_lights;
     scenes_update := Updated [example_scene; example_scene2];
     lights_update := Updated example_lights;
     get_response := fun path =>
       if String.eqb path "scenes/s1"
       then Ok {| lightstates := example_lightstates |}
       else Ok {| lightstates := [("B", example_stored)] |};
     put_response := fun _ => Ok tt;
     set_state_response := fun _ => Ok tt;
     first_arrival := 0 |}.

(** A bridge with no scene named "Circadian". *)
Definition example_other_scene : Scene :=
  {| scene_id := "s9"; scene_name := "Relax"; scene_lights := ["A"; "B"] |}.

Definition example_api_other_scene : Api :=
  {| scenes := [example_other_scene];
     lights := example_lights;
     scenes_update := Updated [example_other_scene];
     lights_update := Updated example_lights;
     get_response := fun _ => Ok {| lightstates := example_lightstates |};
     put_response := fun _ => Ok tt;
     set_state_response := fun _ => Ok tt;
     first_arrival := 0 |}.

(** A bridge on which [set_state] fails for the light A, and answers for the
    light B. *)
Definition example_api_failing_light : Api :=
  {| scenes := [example_scene];
     lights := example_lights;
     scenes_update := Updated [example_scene];
     lights_update := Updated example_lights;
     get_response := fun _ =>
       Ok {| lightstates := [("A", example_stored) ; ("B", example_stored)] |};
     put_response := fun _ => Ok tt;
     set_state_response := fun id =>
       if String.eqb id "A" then Raise RequestError else Ok tt;
     first_arrival := 0 |}.

(** Two bridges, the first of which fails its scene refresh, polled by an
    event loop that resumes the second bridge's task first. *)
Definition example_hass_two_bridges : Hass :=
  {| circadian_values := Some example_reading;
     hue_data := Some [BridgeEntry example_broken_bridge; OtherEntry;
                       BridgeEntry example_bridge];
     loop_schedule := [1%nat; 0%nat; 1%nat] |}.

(** * Properties *)

(** ** Comparisons on [Q] *)


Lemma Qgtb_false (x y : Q) : Qgtb x y = false <-> (x <= y)%Q.
Proof.
  unfold Qgtb. rewrite negb_false_iff. apply Qle_bool_iff.
Qed.


(** ** Brightness *)


Lemma brightness_scaled (p : Q) :
  (p <= 0)%Q -> brightness p = (255 * ((100 + p) / 100))%Q.
Proof.
  intros H. unfold brightness.
  apply Qgtb_false in H. rewrite H. reflexivity.
Qed.

(** ** Brightness on binary64 floats *)







(** ** Dicts as association lists *)

Lemma dict_set_In {V} (k k' : string) (v v' : V) (d : list (string * V)) :
  In (k', v') (dict_set k v d) -> (k' = k /\ v' = v) \/ In (k', v') d.
Proof.
  induction d as [|[k0 v0] d IH]; simpl.
  - intros [H|[]]. inversion H. now left.
  - destruct (String.eqb k0 k) eqn:E; simpl.
    + intros [H|H]; [inversion H; now left | right; now right].
    + intros [H|H]; [right; now left|].
      destruct (IH H) as [?|?]; [now left | right; now right].
Qed.

Lemma lookup_dict_set_same {V} (k : string) (v : V) (d : list (string * V)) :
  lookup k (dict_set k v d) = Some v.
Proof.
  unfold lookup. induction d as [|[k0 v0] d IH]; simpl.
  - now rewrite String.eqb_refl.
  - destruct (String.eqb k0 k) eqn:E; simpl.
    + now rewrite String.eqb_refl.
    + now rewrite E.
Qed.

Lemma lookup_dict_set_keeps {V} (k k' : string) (v : V)
      (d : list (string * V)) :
  lookup k' d <> None -> lookup k' (dict_set k v d) <> None.
Proof.
  unfold lookup. induction d as [|[k0 v0] d IH]; simpl.
  - intros H. now contradiction H.
  - destruct (String.eqb k0 k) eqn:E; simpl.
    + apply String.eqb_eq in E. subst k0.
      destruct (String.eqb k k'); [discriminate | auto].
    + destruct (String.eqb k0 k'); [discriminate | auto].
Qed.

(** ** The patches of [get_lightstate] *)

Section Patches.
Variables (xy : float * float) (b : Q) (flag : bool).

Lemma light_data_on (light : Light) :
  lookup "on" (light_data xy b flag light) = Some (VBool true).
Proof. reflexivity. Qed.

Lemma light_data_transitiontime (light : Light) :
  lookup "transitiontime" (light_data xy b flag light) = Some (VInt 20).
Proof.
  unfold light_data. destruct (has_xy (light_state light)), flag; reflexivity.
Qed.

Lemma light_data_xy (light : Light) :
  lookup "xy" (light_data xy b flag light) =
  if has_xy (light_state light) then Some (VXy xy) else None.
Proof.
  unfold light_data. destruct (has_xy (light_state light)), flag; reflexivity.
Qed.

Lemma light_data_bri (light : Light) :
  lookup "bri" (light_data xy b flag light) =
  if flag then Some (VInt (py_int b)) else None.
Proof.
  unfold light_data. destruct (has_xy (light_state light)), flag; reflexivity.
Qed.

Lemma fill_out_In (lights : list Light) :
  forall (out : list (string * patch)) (id : string) (d : patch),
    In (id, d) (fill_out xy b flag lights out) ->
    In (id, d) out \/
    exists light, In light lights /\ light_id light = id /\
                  d = light_data xy b flag light.
Proof.
  induction lights as [|l lights IH]; simpl; intros out id d H.
  - now left.
  - destruct (IH _ _ _ H) as [Hin|[l' [Hl' [Hid Hd]]]].
    + apply dict_set_In in Hin. destruct Hin as [[Hk Hv]|Hin].
      * right. exists l. auto.
      * now left.
    + right. exists l'. auto.
Qed.

Lemma fill_out_keeps (lights : list Light) :
  forall (out : list (string * patch)) (k : string),
    lookup k out <> None ->
    lookup k (fill_out xy b flag lights out) <> None.
Proof.
  induction lights as [|l lights IH]; simpl; intros out k H; [assumption|].
  apply IH. now apply lookup_dict_set_keeps.
Qed.

Lemma fill_out_covers (lights : list Light) :
  forall (out : list (string * patch)) (light : Light),
    In light lights ->
    lookup (light_id light) (fill_out xy b flag lights out) <> None.
Proof.
  induction lights as [|l lights IH]; simpl; intros out light H; [easy|].
  destruct H as [->|H].
  - apply fill_out_keeps. rewrite lookup_dict_set_same. discriminate.
  - now apply IH.
Qed.
End Patches.

(** C5: with the colour sensor published, [get_lightstate] returns a dict
    with an entry for every input light, and every patch in it is the one
    computed for an input light of that id: it has on=true and
    transitiontime=20; it has an xy field exactly when that light's state has
    one (the sensor's xy colour then); its brightness field, if any, is there
    only with the flag set and is the integer [int(brightness)]; with the
    flag false there is none. *)
Theorem get_lightstate_patches (reading : CircadianValues)
        (lights : list Light) (set_brightness : bool) :
  exists out,
    get_lightstate (Some reading) lights set_brightness = Ok out /\
    (forall light, In light lights -> lookup (light_id light) out <> None) /\
    (forall id d, In (id, d) out ->
       exists light,
         In light lights /\ light_id light = id /\
         lookup "on" d = Some (VBool true) /\
         lookup "transitiontime" d = Some (VInt 20) /\
         (lookup "xy" d <> None <-> st_xy (light_state light) <> None) /\
         (st_xy (light_state light) = None -> lookup "xy" d = None) /\
         (lookup "xy" d <> None ->
          lookup "xy" d = Some (VXy (xy_color reading))) /\
         (forall v, lookup "bri" d = Some v ->
            set_brightness = true /\
            v = VInt (py_int (brightness (percent reading)))) /\
         (set_brightness = true ->
          lookup "bri" d = Some (VInt (py_int (brightness (percent reading))))) /\
         (set_brightness = false -> lookup "bri" d = None)).
Proof.
  eexists. split; [reflexivity|]. split.
  - intros light H. now apply fill_out_covers.
  - intros id d H. apply fill_out_In in H. destruct H as [[]|[l [Hl [Hid Hd]]]].
    exists l. subst d.
    rewrite light_data_on, light_data_transitiontime, light_data_xy,
      light_data_bri.
    unfold has_xy.
    repeat split; auto.
    + destruct (st_xy (light_state l)); congruence.
    + destruct (st_xy (light_state l)); congruence.
    + intros ->. reflexivity.
    + destruct (st_xy (light_state l)); congruence.
    + destruct set_brightness; congruence.
    + destruct set_brightness; congruence.
    + intros ->. reflexivity.
    + intros ->. reflexivity.
Qed.

(** ** The comparison loop of [update_bridge] *)

Lemma forallb_map_same {A} (f : A -> bool) (g : A -> A) (xs : list A) :
  (forall x, f (g x) = f x) -> forallb f (map g xs) = forallb f xs.
Proof.
  intros H. induction xs as [|x xs IH]; simpl; [reflexivity|].
  now rewrite H, IH.
Qed.

Lemma comparable_inv (lights : list Light) (item : string * LightState) :
  comparable lights item = true ->
  exists light current_on state_on current_bri state_bri,
    lookup_light (fst item) lights = Some light /\
    st_on (light_state light) = Some current_on /\
    st_on (snd item) = Some state_on /\
    st_bri (light_state light) = Some current_bri /\
    st_bri (snd item) = Some state_bri /\
    (st_xy (light_state light) <> None -> st_xy (snd item) <> None).
Proof.
  unfold comparable.
  destruct (lookup_light (fst item) lights) as [light|]; [|discriminate].
  destruct (st_on (light_state light)) as [con|] eqn:E1; [|discriminate].
  destruct (st_on (snd item)) as [son|] eqn:E2; [|discriminate].
  destruct (st_bri (light_state light)) as [cbri|] eqn:E3; [|discriminate].
  destruct (st_bri (snd item)) as [sbri|] eqn:E4; [|discriminate].
  cbn [present andb]. intros H.
  exists light, con, son, cbri, sbri.
  split; [reflexivity|]. do 4 (split; [first [assumption | reflexivity]|]).
  intros Hlive Hstored. rewrite Hstored in H.
  destruct (st_xy (light_state light)); [discriminate | congruence].
Qed.

Lemma compare_light_step (lights : list Light) (a b : bool)
      (item : string * LightState) :
  comparable lights item = true ->
  compare_light lights (a, b) item =
  Ok (a && item_active lights item, b || item_bri_changed lights item).
Proof.
  intros H.
  destruct (comparable_inv _ _ H)
    as [light [con [son [cbri [sbri [Hl [Hc [Hs [Hcb [Hsb Hxy]]]]]]]]]].
  destruct item as [id state]. cbn [fst snd] in *.
  unfold compare_light, item_active, item_bri_changed. cbn [fst snd].
  rewrite Hl. cbn [of_option rbind]. cbv zeta.
  rewrite Hc, Hs, Hcb, Hsb. cbn [of_option rbind].
  generalize (Bool.eqb con son). generalize (5 <? Z.abs (cbri - sbri)).
  intros z e.
  destruct (st_xy (light_state light)) as [cxy|].
  - destruct (st_xy state) as [sxy|]; [|exfalso; now apply Hxy].
    cbn [of_option rbind].
    generalize (xy_differs (fst cxy) (fst sxy)
                || xy_differs (snd cxy) (fst sxy)).
    intros q. destruct a, b, z, e, q; reflexivity.
  - destruct a, b, z, e; reflexivity.
Qed.

Lemma compare_fold (lights : list Light)
      (lightstates : list (string * LightState)) :
  forall a b,
    forallb (comparable lights) lightstates = true ->
    fold_result (compare_light lights) (a, b) lightstates =
    Ok (a && forallb (item_active lights) lightstates,
        b || existsb (item_bri_changed lights) lightstates).
Proof.
  induction lightstates as [|item rest IH];
    cbn [fold_result forallb existsb]; intros a b H.
  - now rewrite andb_true_r, orb_false_r.
  - apply andb_prop in H. destruct H as [Hi Hr].
    rewrite (compare_light_step _ _ _ _ Hi). cbn [rbind].
    rewrite (IH _ _ Hr). now rewrite andb_assoc, orb_assoc.
Qed.

Lemma item_active_spec (lights : list Light) (id : string)
      (state : LightState) (light : Light) :
  comparable lights (id, state) = true ->
  lookup_light id lights = Some light ->
  item_active lights (id, state) = true <->
  on_matches (light_state light) state /\ xy_within (light_state light) state.
Proof.
  intros Hc Hl.
  destruct (comparable_inv _ _ Hc)
    as [light' [con [son [cbri [sbri [Hl' [Hon [Hson _]]]]]]]].
  cbn [fst snd] in *. rewrite Hl in Hl'. inversion Hl'. subst light'.
  unfold item_active, on_matches, xy_within. cbn [fst snd].
  rewrite Hl, Hon, Hson, andb_true_iff, Bool.eqb_true_iff.
  split; intros [H Hxy]; (split; [congruence|]).
  - intros cxy sxy Hcxy Hsxy. rewrite Hcxy, Hsxy in Hxy.
    apply negb_true_iff, orb_false_iff in Hxy. exact Hxy.
  - destruct (st_xy (light_state light)) as [cxy|]; [|reflexivity].
    destruct (st_xy state) as [sxy|]; [|reflexivity].
    destruct (Hxy cxy sxy eq_refl eq_refl) as [H1 H2].
    now rewrite H1, H2.
Qed.

Lemma item_active_with_bri (lights : list Light) (bri : string -> Z)
      (item : string * LightState) :
  item_active lights (with_bri bri item) = item_active lights item.
Proof. reflexivity. Qed.

Lemma comparable_with_bri (lights : list Light) (bri : string -> Z)
      (item : string * LightState) :
  comparable lights item = true ->
  comparable lights (with_bri bri item) = true.
Proof.
  unfold comparable, with_bri. cbn [fst snd st_on st_bri st_xy].
  destruct (lookup_light (fst item) lights) as [light|]; [|discriminate].
  destruct (st_on (light_state light)), (st_on (snd item)),
    (st_bri (light_state light)), (st_bri (snd item)); try discriminate;
    auto.
Qed.

(** C1: on every [lightstates] the loop can read, the comparison ends with
    [is_current_scene] true exactly when every entry's live on/off equals
    the stored one and, where the light has a live xy, neither live
    coordinate is more than 0.02 away from the stored x-coordinate in the
    code's float comparison; with [brightness_changed] true exactly when some
    entry's brightness differs by more than 5; and with the same
    [is_current_scene] whatever the stored brightness values are. *)
Theorem scene_judged_active (lights : list Light)
        (lightstates : list (string * LightState)) :
  forallb (comparable lights) lightstates = true ->
  exists is_current_scene brightness_changed,
    compare_lights lights lightstates =
      Ok (is_current_scene, brightness_changed) /\
    (is_current_scene = true <->
     forall id state light,
       In (id, state) lightstates -> lookup_light id lights = Some light ->
       on_matches (light_state light) state /\
       xy_within (light_state light) state) /\
    (brightness_changed = true <->
     exists id state light,
       In (id, state) lightstates /\ lookup_light id lights = Some light /\
       bri_diverges (light_state light) state) /\
    (forall bri, exists changed,
       compare_lights lights (map (with_bri bri) lightstates) =
       Ok (is_current_scene, changed)).
Proof.
  intros Hc. unfold compare_lights.
  rewrite (compare_fold _ _ _ _ Hc). cbn [andb orb].
  do 2 eexists. split; [reflexivity|]. split; [|split].
  - rewrite forallb_forall. split.
    + intros H id state light Hin Hl.
      rewrite forallb_forall in Hc.
      apply (item_active_spec _ _ _ _ (Hc _ Hin) Hl). now apply H.
    + intros H [id state] Hin.
      rewrite forallb_forall in Hc. pose proof (Hc _ Hin) as Hi.
      destruct (comparable_inv _ _ Hi) as [light [_ [_ [_ [_ [Hl _]]]]]].
      cbn [fst] in Hl.
      apply (item_active_spec _ _ _ _ Hi Hl). now apply (H id state light).
  - rewrite existsb_exists. unfold bri_diverges. split.
    + intros [[id state] [Hin H]]. unfold item_bri_changed in H.
      cbn [fst snd] in H.
      destruct (lookup_light id lights) as [light|] eqn:Hl; [|discriminate].
      destruct (st_bri (light_state light)) as [cbri|] eqn:Hcb;
        [|discriminate].
      destruct (st_bri state) as [sbri|] eqn:Hsb; [|discriminate].
      exists id, state, light. apply Z.ltb_lt in H.
      repeat split; auto. exists cbri, sbri. auto.
    + intros [id [state [light [Hin [Hl [cbri [sbri [Hcb [Hsb H]]]]]]]]].
      exists (id, state). split; [assumption|].
      unfold item_bri_changed. cbn [fst snd]. rewrite Hl, Hcb, Hsb.
      now apply Z.ltb_lt.
  - intros bri. eexists.
    rewrite compare_fold.
    + cbn [andb].
      rewrite (forallb_map_same _ _ _ (item_active_with_bri lights bri)).
      reflexivity.
    + rewrite forallb_forall in *. intros item Hin.
      apply in_map_iff in Hin. destruct Hin as [item0 [<- Hin0]].
      apply comparable_with_bri. now apply Hc.
Qed.

Lemma scene_judged_active_witness :
  exists is_current_scene brightness_changed,
    compare_lights example_mixed_lights example_mixed_lightstates =
      Ok (is_current_scene, brightness_changed) /\
    (is_current_scene = true <->
     forall id state light,
       In (id, state) example_mixed_lightstates ->
       lookup_light id example_mixed_lights = Some light ->
       on_matches (light_state light) state /\
       xy_within (light_state light) state) /\
    (brightness_changed = true <->
     exists id state light,
       In (id, state) example_mixed_lightstates /\
       lookup_light id example_mixed_lights = Some light /\
       bri_diverges (light_state light) state) /\
    (forall bri, exists changed,
       compare_lights example_mixed_lights
                      (map (with_bri bri) example_mixed_lightstates) =
       Ok (is_current_scene, changed)).
Proof.
  apply (scene_judged_active example_mixed_lights example_mixed_lightstates).
  reflexivity.
Defined.

(** The xy test at the tolerance, as the floats decide it: a light live at
    x = 0.45 against a stored x = 0.43 is out of tolerance (the float
    difference is above the float 0.02) and the scene is judged not active;
    live at (0.45, 0.44) against a stored x = 0.44 it is within, and the
    scene is judged active with the brightness change of A noticed. *)
Example xy_test_at_the_tolerance :
  xy_differs 0.45%float 0.43%float = true /\
  compare_lights
    [ {| light_id := "D";
         light_state :=
           {| st_on := Some true; st_bri := Some 200;
              st_xy := Some (0.45%float, 0.45%float) |} |} ]
    [ ("D", {| st_on := Some true; st_bri := Some 200;
               st_xy := Some (0.43%float, 0.40%float) |}) ] =
    Ok (false, false) /\
  compare_lights example_mixed_lights example_mixed_lightstates =
    Ok (true, true).
Proof. repeat split; vm_compute; reflexivity. Qed.

(** ** The trace monad *)

Lemma trace_bind {A B} (m : M A) (f : A -> M B) :
  trace (bind m f) =
  trace m ++ match outcome m with
             | Ok a => trace (f a)
             | Raise _ => []
             end.
Proof.
  destruct m as [t [a|e]]; unfold bind, trace, outcome; simpl.
  - destruct (f a). reflexivity.
  - now rewrite app_nil_r.
Qed.

Lemma outcome_bind {A B} (m : M A) (f : A -> M B) :
  outcome (bind m f) =
  match outcome m with
  | Ok a => outcome (f a)
  | Raise e => Raise e
  end.
Proof.
  destruct m as [t [a|e]]; unfold bind, outcome; simpl.
  - destruct (f a). reflexivity.
  - reflexivity.
Qed.

Lemma In_trace_bind {A B} (m : M A) (f : A -> M B) (e : event) :
  In e (trace (bind m f)) ->
  In e (trace m) \/ exists a, outcome m = Ok a /\ In e (trace (f a)).
Proof.
  rewrite trace_bind. intros H. apply in_app_or in H.
  destruct H as [H|H]; [now left|].
  destruct (outcome m) as [a|x]; [|contradiction].
  right. now exists a.
Qed.

Lemma In_trace_for_each {A} (xs : list A) (body : A -> M unit) (e : event) :
  In e (trace (for_each xs body)) ->
  exists x, In x xs /\ In e (trace (body x)).
Proof.
  induction xs as [|x xs IH]; cbn [for_each].
  - intros [].
  - intros H. apply In_trace_bind in H. destruct H as [H|[_ [_ H]]].
    + exists x. split; [now left | assumption].
    + destruct (IH H) as [y [Hy He]]. exists y. split; [now right|assumption].
Qed.

Lemma trace_gather (arrival : nat) (coros : list (M unit)) :
  trace (gather arrival coros) = flat_map trace coros.
Proof. reflexivity. Qed.

Lemma map_result_ok {A B} (f : A -> result B) (g : A -> B) (xs : list A) :
  (forall x, In x xs -> f x = Ok (g x)) -> map_result f xs = Ok (map g xs).
Proof.
  induction xs as [|x xs IH]; intros H; cbn [map_result map]; [reflexivity|].
  rewrite (H x (or_introl eq_refl)). cbn [rbind].
  rewrite IH; [reflexivity|]. intros y Hy. apply H. now right.
Qed.

Lemma map_result_In {A B} (f : A -> result B) (xs : list A) (ys : list B) :
  map_result f xs = Ok ys ->
  forall y, In y ys -> exists x, In x xs /\ f x = Ok y.
Proof.
  revert ys. induction xs as [|x xs IH]; cbn [map_result]; intros ys H y Hy.
  - inversion H. subst. contradiction.
  - destruct (f x) as [y0|] eqn:Ex; [|discriminate]. cbn [rbind] in H.
    destruct (map_result f xs) as [ys0|] eqn:Er; [|discriminate].
    cbn [rbind] in H. inversion H. subst ys. destruct Hy as [<-|Hy].
    + exists x. split; [now left|assumption].
    + destruct (IH _ eq_refl _ Hy) as [x' [Hx' Hf]].
      exists x'. split; [now right|assumption].
Qed.

Lemma lookup_light_id (id : string) (lights : list Light) (light : Light) :
  lookup_light id lights = Some light -> light_id light = id.
Proof.
  unfold lookup_light. intros H. apply find_some in H.
  now apply String.eqb_eq.
Qed.

Lemma bind_lift_ok {A B} (a : A) (f : A -> M B) : bind (lift (Ok a)) f = f a.
Proof. unfold bind, lift. now destruct (f a). Qed.

Lemma bind_lift_raise {A B} (e : exn) (f : A -> M B) :
  bind (lift (Raise e)) f = ([], Raise e).
Proof. reflexivity. Qed.

Lemma bind_ret {A B} (a : A) (f : A -> M B) : bind (ret a) f = f a.
Proof. apply bind_lift_ok. Qed.

Lemma bind_emit {B} (e : event) (f : unit -> M B) :
  bind (emit e) f = (e :: trace (f tt), outcome (f tt)).
Proof. unfold bind, emit. now destruct (f tt). Qed.

Lemma bind_assoc {A B C} (m : M A) (f : A -> M B) (g : B -> M C) :
  bind (bind m f) g = bind m (fun a => bind (f a) g).
Proof.
  destruct m as [t [a|e]]; unfold bind; [|reflexivity].
  destruct (f a) as [t1 [b|e1]]; [|reflexivity].
  destruct (g b) as [t2 r2]. now rewrite app_assoc.
Qed.

Lemma bind_request_get {B} (a : Api) (path : string) (f : SceneDetail -> M B) :
  bind (request_get a path) f =
  bind (emit (Request GET path None))
       (fun _ => bind (lift (get_response a path)) f).
Proof. unfold request_get. apply bind_assoc. Qed.

Lemma bind_request_put {B} (a : Api) (path : string) (json : payload)
      (f : unit -> M B) :
  bind (request_put a path json) f =
  bind (emit (Request PUT path (Some json)))
       (fun _ => bind (lift (put_response a path)) f).
Proof. unfold request_put. apply bind_assoc. Qed.

(** ** One scene of the loop: [update_scene] *)

(** A member light is found again under its own id. *)
Lemma member_lights_lookup (lights : list Light) (scene : Scene)
      (members : list Light) :
  member_lights lights scene = Ok members ->
  forall light, In light members ->
    lookup_light (light_id light) lights = Some light.
Proof.
  unfold member_lights. intros H light Hin.
  destruct (map_result_In _ _ _ H _ Hin) as [id [_ Hid]].
  destruct (lookup_light id lights) as [l|] eqn:E; [|discriminate].
  inversion Hid. subst l. now rewrite (lookup_light_id _ _ _ E).
Qed.

Lemma set_state_coros_trace (a : Api) (state : list (string * patch)) :
  flat_map trace (map (set_state_coro a) state) = set_state_events state.
Proof.
  induction state as [|item state IH]; cbn [map flat_map set_state_events];
    [reflexivity|].
  unfold set_state_events in IH. rewrite IH.
  unfold set_state_coro. rewrite bind_emit. reflexivity.
Qed.

Lemma get_lightstate_some (sensor : option CircadianValues)
      (lights : list Light) (flag : bool) (state : list (string * patch)) :
  get_lightstate sensor lights flag = Ok state ->
  exists reading,
    sensor = Some reading /\
    forall flag',
      get_lightstate sensor lights flag' =
      Ok (fill_out (xy_color reading) (brightness (percent reading)) flag'
                   lights []).
Proof.
  destruct sensor as [reading|]; [|discriminate].
  intros _. exists reading. split; reflexivity.
Qed.

Lemma update_scene_trace
      (sensor : option CircadianValues) (a : Api) (scenes : list Scene)
      (lights : list Light) (sid : string) (scene : Scene)
      (detail : SceneDetail) (is_current_scene brightness_changed : bool)
      (members : list Light) (state live : list (string * patch)) :
  lookup_scene sid scenes = Some scene ->
  scene_name scene = "Circadian" ->
  get_response a (scene_path sid) = Ok detail ->
  compare_lights lights (lightstates detail) =
    Ok (is_current_scene, brightness_changed) ->
  member_lights lights scene = Ok members ->
  get_lightstate sensor members true = Ok state ->
  get_lightstate sensor members (negb brightness_changed) = Ok live ->
  trace (update_scene sensor a scenes lights sid) =
  [Request GET (scene_path sid) None;
   Request PUT (scene_path sid) (Some [("lightstates", state)])] ++
  match put_response a (scene_path sid) with
  | Ok _ => if is_current_scene then set_state_events live else []
  | Raise _ => []
  end.
Proof.
  intros Hscene Hname Hget Hcmp Hmem Hstate Hlive.
  unfold update_scene.
  rewrite Hscene. cbn [of_option]. rewrite bind_lift_ok.
  rewrite Hname. cbn [String.eqb Ascii.eqb Bool.eqb negb].
  rewrite bind_request_get, bind_emit. cbn [trace fst].
  rewrite Hget, bind_lift_ok, Hcmp, bind_lift_ok, Hmem, bind_lift_ok.
  rewrite Hstate, bind_lift_ok. cbn [drop_none].
  rewrite bind_request_put, bind_emit. cbn [trace fst app].
  do 2 f_equal.
  destruct (put_response a (scene_path sid)) as [[]|e]; [|reflexivity].
  rewrite bind_lift_ok.
  destruct is_current_scene; [|reflexivity].
  rewrite Hlive, bind_lift_ok.
  rewrite (map_result_ok _ (set_state_coro a)).
  - rewrite bind_lift_ok, trace_gather. apply set_state_coros_trace.
  - intros [id d] Hin. cbn [fst snd].
    destruct (get_lightstate_some _ _ _ _ Hlive) as [reading [-> Hall]].
    rewrite Hall in Hlive. inversion Hlive as [Heq]. rewrite <- Heq in Hin.
    apply fill_out_In in Hin. destruct Hin as [[]|[l [Hl [Hid _]]]].
    rewrite <- Hid, (member_lights_lookup _ _ _ Hmem _ Hl).
    reflexivity.
Qed.

Lemma lookup_In {V} (k : string) (d : list (string * V)) :
  lookup k d <> None -> exists v, In (k, v) d.
Proof.
  unfold lookup. intros H.
  destruct (find (fun kv => String.eqb (fst kv) k) d) as [[k' v]|] eqn:E;
    [|congruence].
  apply find_some in E. destruct E as [Hin Hk]. cbn [fst] in Hk.
  apply String.eqb_eq in Hk. subst k'. now exists v.
Qed.

(** ** The per-bridge update as a whole *)

(** C4: when the switch's state is not ON (OFF or unset), [update_bridge]
    returns [False] at once and makes no call to the bridge: no refresh, no
    request, no [set_state]. *)
Theorem update_bridge_off_no_calls (self : CircadianHueSwitch)
        (sensor : option CircadianValues) (bridge : HueBridge) :
  _state self <> Some true ->
  update_bridge self sensor bridge = ([], Ok (Some false)) /\
  trace (update_bridge self sensor bridge) = [].
Proof.
  intros H. unfold update_bridge.
  destruct (_state self) as [[|]|]; [congruence | | ]; now split.
Qed.

Lemma update_bridge_off_no_calls_witness :
  (update_bridge (example_switch false (Some false))
                 (Some example_reading) example_bridge
   = ([], Ok (Some false)) /\
   trace (update_bridge (example_switch false (Some false))
                        (Some example_reading) example_bridge) = []) /\
  (update_bridge (example_switch false None)
                 (Some example_reading) example_bridge
   = ([], Ok (Some false)) /\
   trace (update_bridge (example_switch false None)
                        (Some example_reading) example_bridge) = []).
Proof.
  split.
  - apply (update_bridge_off_no_calls (example_switch false (Some false))).
    discriminate.
  - apply (update_bridge_off_no_calls (example_switch false None)).
    discriminate.
Defined.

Lemma update_api_caught {A} (r : resource) (cache : A)
      (answer : update_outcome A) :
  answer = UpdateFailed TimeoutError \/ answer = UpdateFailed AiohueException ->
  update_api r cache answer = ([ApiUpdate r], Ok (false, cache)).
Proof. intros [->| ->]; reflexivity. Qed.

Lemma update_api_updated {A} (r : resource) (cache items : A) :
  update_api r cache (Updated items) = ([ApiUpdate r], Ok (true, items)).
Proof. reflexivity. Qed.

Lemma update_api_scenes_after (a : Api) :
  scenes_update a <> UpdateFailed OtherException ->
  exists ok,
    update_api Scenes (scenes a) (scenes_update a) =
    ([ApiUpdate Scenes], Ok (ok, scenes_after a)).
Proof.
  unfold scenes_after. intros H.
  destruct (scenes_update a) as [items|[| |]]; try congruence;
    eexists; reflexivity.
Qed.

Lemma bind_step {A B} (e : event) (a : A) (f : A -> M B) :
  bind ([e], Ok a) f = (e :: trace (f a), outcome (f a)).
Proof. unfold bind. now destruct (f a). Qed.

(** The cycle once both refreshes have answered and the lights are there. *)
Lemma update_bridge_continues (self : CircadianHueSwitch)
      (sensor : option CircadianValues) (bridge : HueBridge) (a : Api)
      (new_lights : list Light) :
  _state self = Some true ->
  api bridge = Some a ->
  scenes_update a <> UpdateFailed OtherException ->
  lights_update a = Updated new_lights ->
  update_bridge self sensor bridge =
  (ApiUpdate Scenes :: ApiUpdate Lights ::
     trace (update_scenes sensor a (scenes_after a) new_lights),
   rbind (outcome (update_scenes sensor a (scenes_after a) new_lights))
         (fun _ => Ok None)).
Proof.
  intros Hon Hapi Hs Hl. unfold update_bridge.
  rewrite Hon, Hapi. cbn [of_option]. rewrite bind_lift_ok.
  destruct (update_api_scenes_after a Hs) as [ok ->].
  rewrite bind_step. rewrite Hl, update_api_updated, bind_step.
  cbn [negb trace outcome fst snd].
  rewrite trace_bind, outcome_bind.
  destruct (outcome (update_scenes sensor a (scenes_after a) new_lights));
    cbn [rbind ret trace outcome fst snd]; now rewrite ?app_nil_r.
Qed.

(** C7: with the switch on, a light refresh that fails with a timeout or a
    bridge error makes [update_api] answer false and ends the cycle after the
    two refresh calls, before any scene is looked at; a scene refresh that
    fails the same way does not: the loop runs over the scene cache from
    before the refresh, and the detail of a first scene named "Circadian" in
    it is requested. *)
Theorem light_refresh_failure_aborts_scene_failure_does_not
        (self : CircadianHueSwitch) (sensor : option CircadianValues)
        (bridge : HueBridge) (a : Api) :
  _state self = Some true ->
  api bridge = Some a ->
  (lights_update a = UpdateFailed TimeoutError \/
   lights_update a = UpdateFailed AiohueException ->
   scenes_update a <> UpdateFailed OtherException ->
   update_api Lights (lights a) (lights_update a) =
     ([ApiUpdate Lights], Ok (false, lights a)) /\
   update_bridge self sensor bridge =
     ([ApiUpdate Scenes; ApiUpdate Lights], Ok None)) /\
  (scenes_update a = UpdateFailed TimeoutError \/
   scenes_update a = UpdateFailed AiohueException ->
   forall new_lights, lights_update a = Updated new_lights ->
     update_api Scenes (scenes a) (scenes_update a) =
       ([ApiUpdate Scenes], Ok (false, scenes a)) /\
     update_bridge self sensor bridge =
       (ApiUpdate Scenes :: ApiUpdate Lights ::
          trace (update_scenes sensor a (scenes a) new_lights),
        rbind (outcome (update_scenes sensor a (scenes a) new_lights))
              (fun _ => Ok None)) /\
     (forall scene rest,
        scenes a = scene :: rest -> scene_name scene = "Circadian" ->
        In (Request GET (scene_path (scene_id scene)) None)
           (trace (update_bridge self sensor bridge)))).
Proof.
  intros Hon Hapi. split.
  - intros Hl Hs. split; [now apply update_api_caught|].
    unfold update_bridge. rewrite Hon, Hapi. cbn [of_option].
    rewrite bind_lift_ok.
    destruct (update_api_scenes_after a Hs) as [ok ->].
    rewrite bind_step, (update_api_caught _ _ _ Hl), bind_step.
    reflexivity.
  - intros Hs new_lights Hl.
    assert (Hafter : scenes_after a = scenes a).
    { unfold scenes_after. now destruct Hs as [-> | ->]. }
    assert (Hne : scenes_update a <> UpdateFailed OtherException).
    { destruct Hs as [-> | ->]; discriminate. }
    pose proof (update_bridge_continues self sensor bridge a new_lights
                  Hon Hapi Hne Hl) as Hrun.
    rewrite Hafter in Hrun.
    split; [now apply update_api_caught|]. split; [exact Hrun|].
    intros scene rest Hcache Hname. rewrite Hrun. cbn [trace fst].
    right. right. unfold update_scenes. rewrite Hcache.
    cbn [map for_each]. rewrite trace_bind. apply in_or_app. left.
    unfold update_scene, lookup_scene. cbn [find].
    rewrite String.eqb_refl. cbn [of_option]. rewrite bind_lift_ok.
    rewrite Hname. cbn [String.eqb Ascii.eqb Bool.eqb negb].
    rewrite bind_request_get, bind_emit. now left.
Qed.

Lemma light_refresh_failure_aborts_scene_failure_does_not_witness :
  (update_api Lights example_lights (UpdateFailed TimeoutError) =
     ([ApiUpdate Lights], Ok (false, example_lights)) /\
   update_bridge (example_switch true (Some true)) (Some example_reading)
     (example_bridge_with
        (example_api_answering (Updated [example_scene])
                               (UpdateFailed TimeoutError))) =
     ([ApiUpdate Scenes; ApiUpdate Lights], Ok None)) /\
  (In (Request GET (scene_path "s1") None)
      (trace (update_bridge (example_switch true (Some true))
                (Some example_reading)
                (example_bridge_with
                   (example_api_answering (UpdateFailed AiohueException)
                                          (Updated example_lights)))))).
Proof.
  split.
  - apply (proj1 (light_refresh_failure_aborts_scene_failure_does_not
                    (example_switch true (Some true)) (Some example_reading)
                    (example_bridge_with
                       (example_api_answering (Updated [example_scene])
                                              (UpdateFailed TimeoutError)))
                    _ eq_refl eq_refl)).
    + left. reflexivity.
    + discriminate.
  - apply (proj2 (light_refresh_failure_aborts_scene_failure_does_not
                    (example_switch true (Some true)) (Some example_reading)
                    (example_bridge_with
                       (example_api_answering (UpdateFailed AiohueException)
                                              (Updated example_lights)))
                    _ eq_refl eq_refl)
                 (or_intror eq_refl) example_lights eq_refl)
      with (scene := example_scene) (rest := []); reflexivity.
Defined.

(** The run of the example bridge: A's brightness was changed by hand, so
    the scene is rewritten with the brightness of the curve and the lights
    are pushed without it. *)
Example update_bridge_example :
  update_bridge (example_switch false (Some true)) (Some example_reading)
                example_bridge =
  ([ApiUpdate Scenes; ApiUpdate Lights;
    Request GET "scenes/s1" None;
    Request PUT "scenes/s1"
      (Some [("lightstates",
              [("A", [("on", VBool true); ("bri", VInt 153);
                      ("transitiontime", VInt 20)]);
               ("B", [("on", VBool true); ("bri", VInt 153);
                      ("transitiontime", VInt 20)])])]);
    SetState "A" [("on", VBool true); ("transitiontime", VInt 20)];
    SetState "B" [("on", VBool true); ("transitiontime", VInt 20)]],
   Ok None).
Proof. reflexivity. Qed.

(** ** The poll cycle *)

(** C8: when the guard is held by an earlier invocation,
    [async_update_info] returns at once: no bridge is enumerated or called,
    nothing is slept, and the entity is left exactly as it was, so nothing
    records the skipped tick. *)
Theorem poll_skipped_while_guard_held (self : CircadianHueSwitch)
        (hass : Hass) (now : option Z) :
  lock self = true ->
  async_update_info self hass now =
  {| poll_self := self; poll_trace := []; poll_result := Ok tt |}.
Proof.
  intros H. unfold async_update_info, lock_acquire_nonblocking.
  rewrite H. reflexivity.
Qed.

Lemma poll_skipped_while_guard_held_witness :
  async_update_info (example_switch true (Some true))
                    (example_hass (Some [BridgeEntry example_bridge]))
                    (Some 15) =
  {| poll_self := example_switch true (Some true);
     poll_trace := [];
     poll_result := Ok tt |}.
Proof.
  apply (poll_skipped_while_guard_held (example_switch true (Some true))).
  reflexivity.
Defined.

Lemma finally_release_frees (self : CircadianHueSwitch)
      (body : list poll_event * result unit) :
  lock self = true ->
  finally_release self body =
  {| poll_self := set_lock false self;
     poll_trace := fst body;
     poll_result := snd body |}.
Proof.
  intros H. unfold finally_release, lock_release. rewrite H.
  now destruct body.
Qed.

(** C10: an invocation of [async_update_info] that finds the guard free
    returns with the guard free again, whatever the [try] block did (no
    bridges, the backoff sleep, the per-bridge updates, or an exception,
    which is raised again after the release); the next invocation acquires
    the guard.  The [finally] clause frees the guard after any outcome of
    the block, any exception included. *)
Theorem poll_releases_guard (self : CircadianHueSwitch) (hass : Hass)
        (now : option Z) :
  lock self = false ->
  let after := async_update_info self hass now in
  lock (poll_self after) = false /\
  _state (poll_self after) = _state self /\
  poll_trace after = fst (poll_body (set_lock true self) hass now) /\
  poll_result after = snd (poll_body (set_lock true self) hass now) /\
  fst (lock_acquire_nonblocking (poll_self after)) = true /\
  (forall body,
     after = finally_release (set_lock true self)
                             (poll_body (set_lock true self) hass now) /\
     lock (poll_self (finally_release (set_lock true self) body)) = false /\
     poll_result (finally_release (set_lock true self) body) = snd body).
Proof.
  intros H. unfold async_update_info, lock_acquire_nonblocking.
  rewrite H. cbn [negb].
  rewrite finally_release_frees by reflexivity.
  cbn. repeat split; try reflexivity.
  all: now rewrite finally_release_frees by reflexivity.
Qed.

Lemma poll_releases_guard_witness :
  (* the lookup of the bridges raises *)
  (let after := async_update_info (example_switch false (Some true))
                                  (example_hass None) (Some 15) in
   lock (poll_self after) = false /\
   _state (poll_self after) = Some true /\
   poll_trace after =
     fst (poll_body (set_lock true (example_switch false (Some true)))
                    (example_hass None) (Some 15)) /\
   poll_result after =
     snd (poll_body (set_lock true (example_switch false (Some true)))
                    (example_hass None) (Some 15)) /\
   fst (lock_acquire_nonblocking (poll_self after)) = true /\
   (forall body,
      after = finally_release
                (set_lock true (example_switch false (Some true)))
                (poll_body (set_lock true (example_switch false (Some true)))
                           (example_hass None) (Some 15)) /\
      lock (poll_self (finally_release
                         (set_lock true (example_switch false (Some true)))
                         body)) = false /\
      poll_result (finally_release
                     (set_lock true (example_switch false (Some true)))
                     body) = snd body)) /\
  poll_result (async_update_info (example_switch false (Some true))
                                 (example_hass None) (Some 15)) =
    Raise KeyError /\
  (* no bridges, scheduled call: the backoff sleep *)
  poll_trace (async_update_info (example_switch false (Some true))
                                (example_hass (Some [OtherEntry])) (Some 15)) =
    [Sleep 5].
Proof.
  split.
  - apply (poll_releases_guard (example_switch false (Some true))
                               (example_hass None) (Some 15)).
    reflexivity.
  - split; reflexivity.
Defined.

(** *** Schedules *)

Lemma pop_In {A} (i : nat) (tasks tasks' : list (list A)) (x : A) :
  pop i tasks = Some (x, tasks') ->
  forall y, In y (List.concat tasks) <-> y = x \/ In y (List.concat tasks').
Proof.
  revert i tasks'. induction tasks as [|t rest IH]; intros i tasks' H y.
  - destruct i; discriminate.
  - destruct i as [|j].
    + destruct t as [|x0 t]; cbn [pop] in H; [discriminate|].
      inversion H. subst. cbn [List.concat app In]. split.
      * intros [Hy|Hy]; [left; now symmetry | now right].
      * intros [Hy|Hy]; [left; now symmetry | now right].
    + cbn [pop] in H.
      assert (Hp : match pop j rest with
                   | Some (x, rest') => Some (x, t :: rest')
                   | None => None
                   end = Some (x, tasks')) by (destruct t; exact H).
      destruct (pop j rest) as [[x1 rest']|] eqn:E; [|discriminate].
      inversion Hp. subst. cbn [List.concat].
      rewrite !in_app_iff, (IH _ _ E y). tauto.
Qed.

Lemma In_interleave {A} (schedule : list nat) :
  forall (tasks : list (list A)) (y : A),
    In y (interleave schedule tasks) <-> In y (List.concat tasks).
Proof.
  induction schedule as [|i later IH]; intros tasks y; cbn [interleave].
  - reflexivity.
  - destruct (pop i tasks) as [[x tasks']|] eqn:E.
    + cbn [In]. rewrite (IH tasks' y), (pop_In _ _ _ _ E y).
      split; (intros [H|H]; [left; now symmetry | now right]).
    + apply IH.
Qed.

Lemma In_asyncio_wait (schedule : list nat)
      (tasks : list (string * M (option bool))) (ev : poll_event) :
  In ev (asyncio_wait schedule tasks) <->
  exists task e,
    In task tasks /\ In e (trace (snd task)) /\ ev = OnBridge (fst task) e.
Proof.
  unfold asyncio_wait. rewrite In_interleave, in_concat. split.
  - intros [t [Ht Hev]]. apply in_map_iff in Ht.
    destruct Ht as [task [<- Htask]]. apply in_map_iff in Hev.
    destruct Hev as [e [<- He]]. now exists task, e.
  - intros [task [e [Htask [He ->]]]].
    exists (map (OnBridge (fst task)) (trace (snd task))). split.
    + apply in_map_iff. now exists task.
    + now apply in_map.
Qed.

Lemma no_element_nil {A} (xs : list A) : (forall x, ~ In x xs) -> xs = [].
Proof.
  destruct xs as [|x xs]; [reflexivity|]. intros H.
  exfalso. apply (H x). now left.
Qed.

(** The poll awaited at setup runs before any state is restored: it makes
    no call to any bridge and does not sleep. *)
Lemma setup_poll_is_silent (hass : Hass) (name : string) :
  poll_trace (async_setup_platform hass name) = [] /\
  lock (poll_self (async_setup_platform hass name)) = false.
Proof.
  unfold async_setup_platform, async_update_info, new_switch,
    lock_acquire_nonblocking. cbn [lock negb].
  rewrite finally_release_frees by reflexivity. cbn [poll_trace poll_self lock
    set_lock]. split; [|reflexivity].
  unfold poll_body. destruct (get_bridges hass) as [[|b bridges]|];
    try reflexivity.
  cbn [fst]. apply no_element_nil. intros ev Hin.
  apply In_asyncio_wait in Hin. destruct Hin as [task [e [Htask [He _]]]].
  apply in_map_iff in Htask. destruct Htask as [b' [<- _]].
  cbn [snd] in He. destruct He.
Qed.

(** ** The toggle *)

Lemma turn_on_is_on (self : CircadianHueSwitch) :
  is_on (turn_on self) = Some true /\ lock (turn_on self) = lock self.
Proof. split; reflexivity. Qed.

Lemma turn_off_is_off (self : CircadianHueSwitch) :
  is_on (fst (turn_off self)) = Some false /\
  snd (turn_off self) = [ScheduleUpdateHaState].
Proof. split; reflexivity. Qed.

(** ** Restoring the state: [async_added_to_hass] *)

(** C6, as the code has it: on an activation with the state unset the last
    state is requested, and the state becomes ON exactly when a persisted
    state exists and its string is "on", OFF exactly when one exists with
    another string, and stays unset when none exists ([is_on] is then
    [None], which is falsy); on an activation with the state set, nothing is
    requested and nothing changes. *)
Theorem restore_on_activation (self : CircadianHueSwitch)
        (last_state : option string) :
  (_state self = None ->
   let after := fst (async_added_to_hass self last_state) in
   (_state after = Some true <-> last_state = Some STATE_ON) /\
   (_state after = Some false <->
    exists s, last_state = Some s /\ s <> STATE_ON) /\
   (_state after = None <-> last_state = None) /\
   (truthy (is_on after) = true <-> last_state = Some STATE_ON) /\
   snd (async_added_to_hass self last_state) = [AsyncGetLastState]) /\
  (forall v, _state self = Some v ->
             async_added_to_hass self last_state = (self, [])).
Proof.
  split.
  - intros H. unfold async_added_to_hass, is_on. rewrite H. cbn.
    destruct last_state as [s|].
    + destruct (String.eqb s STATE_ON) eqn:E.
      * apply String.eqb_eq in E. subst s.
        repeat split; try congruence; try discriminate.
        intros [s [Hs Hne]]. congruence.
      * apply String.eqb_neq in E.
        repeat split; try congruence; try discriminate.
        intros _. exists s. split; [reflexivity | assumption].
    + repeat split; try congruence; try discriminate.
      intros [s [Hs _]]. discriminate.
  - intros v H. unfold async_added_to_hass. now rewrite H.
Qed.

Lemma restore_on_activation_witness :
  (let after := fst (async_added_to_hass (example_switch false None)
                                         (Some "on")) in
   (_state after = Some true <-> Some "on" = Some STATE_ON) /\
   (_state after = Some false <->
    exists s, Some "on" = Some s /\ s <> STATE_ON) /\
   (_state after = None <-> Some "on" = @None string) /\
   (truthy (is_on after) = true <-> Some "on" = Some STATE_ON) /\
   snd (async_added_to_hass (example_switch false None) (Some "on")) =
     [AsyncGetLastState]) /\
  async_added_to_hass (example_switch false (Some false)) (Some "on") =
    (example_switch false (Some false), []).
Proof.
  split.
  - apply (proj1 (restore_on_activation (example_switch false None)
                                        (Some "on"))).
    reflexivity.
  - apply (proj2 (restore_on_activation (example_switch false (Some false))
                                        (Some "on")) false).
    reflexivity.
Defined.

(** C6 as stated fails: with the state unset and no persisted state, the
    state after the activation is still unset, not OFF. *)
Lemma restore_without_persisted_state_stays_unset :
  _state (example_switch false None) = None /\
  _state (fst (async_added_to_hass (example_switch false None) None)) = None /\
  _state (fst (async_added_to_hass (example_switch false None) None))
    <> Some false /\
  snd (async_added_to_hass
         (fst (async_added_to_hass (example_switch false None) None)) None)
    = [AsyncGetLastState].
Proof. repeat split. discriminate. Qed.

(** ** Which scenes the update acts on *)

Lemma mem_In (x : string) (xs : list string) : mem x xs = true <-> In x xs.
Proof.
  unfold mem. rewrite existsb_exists. split.
  - intros [y [Hy E]]. apply String.eqb_eq in E. now subst.
  - intros H. exists x. split; [assumption | apply String.eqb_refl].
Qed.

Lemma set_eq_spec (a b : list string) :
  set_eq a b = true <-> forall x, In x a <-> In x b.
Proof.
  unfold set_eq. rewrite andb_true_iff, !forallb_forall. split.
  - intros [Hab Hba] x. split; intros H.
    + now apply mem_In, Hab.
    + now apply mem_In, Hba.
  - intros H. split; intros x Hx; apply mem_In, H, Hx.
Qed.

Lemma lookup_scene_In (sid : string) (scenes : list Scene) (scene : Scene) :
  lookup_scene sid scenes = Some scene ->
  In scene scenes /\ scene_id scene = sid.
Proof.
  unfold lookup_scene. intros H. apply find_some in H.
  destruct H as [Hin E]. now apply String.eqb_eq in E.
Qed.

Lemma set_state_coros_only_set_state (a : Api) (lights : list Light)
      (state : list (string * patch)) (coros : list (M unit)) :
  map_result
    (fun item : string * patch =>
       rbind (of_option KeyError (lookup_light (fst item) lights))
             (fun light => Ok (set_state a light (snd item))))
    state = Ok coros ->
  forall arrival m p j,
    ~ In (Request m p j) (trace (gather arrival coros)).
Proof.
  intros H arrival m p j Hin. rewrite trace_gather in Hin.
  apply in_flat_map in Hin. destruct Hin as [c [Hc Hin]].
  destruct (map_result_In _ _ _ H _ Hc) as [item [_ Hitem]].
  destruct (lookup_light (fst item) lights) as [light|]; [|discriminate].
  cbn [of_option rbind] in Hitem. inversion Hitem. subst c.
  unfold set_state in Hin. rewrite bind_emit in Hin.
  destruct Hin as [Hin|Hin]; [discriminate|].
  destruct (set_state_response a (light_id light)); exact Hin.
Qed.

(** A request made by [update_scene] is for the scene it was called on, and
    that scene is named "Circadian". *)
Lemma update_scene_requests (sensor : option CircadianValues) (a : Api)
      (scenes : list Scene) (lights : list Light) (sid : string)
      (m : method) (p : string) (j : option payload) :
  In (Request m p j) (trace (update_scene sensor a scenes lights sid)) ->
  exists scene,
    lookup_scene sid scenes = Some scene /\
    scene_name scene = "Circadian" /\
    p = scene_path sid.
Proof.
  unfold update_scene.
  destruct (lookup_scene sid scenes) as [scene|]; [|intros []].
  cbn [of_option]. rewrite bind_lift_ok.
  destruct (String.eqb (scene_name scene) "Circadian") eqn:Ename;
    [|intros []].
  apply String.eqb_eq in Ename. cbn [negb].
  intros H. exists scene. split; [reflexivity|]. split; [assumption|].
  rewrite bind_request_get, bind_emit in H.
  destruct H as [H|H]; [now inversion H|].
  destruct (get_response a (scene_path sid)) as [detail|]; [|destruct H].
  rewrite bind_lift_ok in H.
  destruct (compare_lights lights (lightstates detail)) as [[cur chg]|];
    [|destruct H].
  rewrite bind_lift_ok in H.
  destruct (member_lights lights scene) as [members|]; [|destruct H].
  rewrite bind_lift_ok in H.
  destruct (get_lightstate sensor members true) as [state|]; [|destruct H].
  rewrite bind_lift_ok, bind_request_put, bind_emit in H.
  destruct H as [H|H]; [now inversion H|].
  destruct (put_response a (scene_path sid)) as [[]|]; [|destruct H].
  rewrite bind_lift_ok in H.
  destruct cur; [|destruct H].
  destruct (get_lightstate sensor members (negb chg)) as [live|];
    [|destruct H].
  rewrite bind_lift_ok in H.
  match type of H with
  | In _ (trace (bind (lift ?r) _)) => destruct r as [coros|] eqn:Ec
  end; [|destruct H].
  rewrite bind_lift_ok in H.
  exfalso. exact (set_state_coros_only_set_state _ _ _ _ Ec _ _ _ _ H).
Qed.

Lemma update_scenes_requests (sensor : option CircadianValues) (a : Api)
      (scenes : list Scene) (lights : list Light)
      (m : method) (p : string) (j : option payload) :
  In (Request m p j) (trace (update_scenes sensor a scenes lights)) ->
  exists scene,
    In scene scenes /\ scene_name scene = "Circadian" /\
    p = scene_path (scene_id scene).
Proof.
  unfold update_scenes. intros H.
  apply In_trace_for_each in H. destruct H as [sid [_ H]].
  apply update_scene_requests in H. destruct H as [scene [Hl [Hn Hp]]].
  apply lookup_scene_In in Hl. destruct Hl as [Hin Hid].
  exists scene. subst sid. auto.
Qed.

Lemma trace_for_each_reaches {A} (pre post : list A) (x : A)
      (body : A -> M unit) :
  (forall y, In y pre -> outcome (body y) = Ok tt) ->
  trace (for_each (pre ++ x :: post) body) =
  flat_map (fun y => trace (body y)) pre
    ++ trace (body x)
    ++ match outcome (body x) with
       | Ok _ => trace (for_each post body)
       | Raise _ => []
       end.
Proof.
  intros Hpre. induction pre as [|y pre IH]; cbn [app for_each flat_map].
  - rewrite trace_bind. reflexivity.
  - rewrite trace_bind, (Hpre y (or_introl eq_refl)), IH, <- app_assoc.
    + reflexivity.
    + intros z Hz. apply Hpre. now right.
Qed.

(** The calls of a cycle up to and after the scene [sid], when the loop
    reaches it. *)
Lemma update_bridge_reaches (self : CircadianHueSwitch)
      (sensor : option CircadianValues) (bridge : HueBridge) (a : Api)
      (new_lights : list Light) (pre post : list string) (sid : string) :
  _state self = Some true ->
  api bridge = Some a ->
  scenes_update a <> UpdateFailed OtherException ->
  lights_update a = Updated new_lights ->
  map scene_id (scenes_after a) = pre ++ sid :: post ->
  (forall y, In y pre ->
             outcome (update_scene sensor a (scenes_after a) new_lights y)
             = Ok tt) ->
  trace (update_bridge self sensor bridge) =
  (ApiUpdate Scenes :: ApiUpdate Lights ::
     flat_map (fun y => trace (update_scene sensor a (scenes_after a)
                                            new_lights y)) pre)
    ++ trace (update_scene sensor a (scenes_after a) new_lights sid)
    ++ match outcome (update_scene sensor a (scenes_after a) new_lights sid)
       with
       | Ok _ => trace (for_each post (update_scene sensor a (scenes_after a)
                                                    new_lights))
       | Raise _ => []
       end.
Proof.
  intros Hon Hapi Hs Hl Hids Hpre.
  rewrite (update_bridge_continues _ _ _ _ _ Hon Hapi Hs Hl).
  cbn [trace fst]. unfold update_scenes. rewrite Hids.
  rewrite (trace_for_each_reaches _ _ _ _ Hpre). reflexivity.
Qed.

Lemma update_scene_fetches (sensor : option CircadianValues) (a : Api)
      (scenes : list Scene) (lights : list Light) (sid : string)
      (scene : Scene) :
  lookup_scene sid scenes = Some scene ->
  scene_name scene = "Circadian" ->
  In (Request GET (scene_path sid) None)
     (trace (update_scene sensor a scenes lights sid)).
Proof.
  intros Hscene Hname. unfold update_scene.
  rewrite Hscene. cbn [of_option]. rewrite bind_lift_ok.
  rewrite Hname. cbn [String.eqb Ascii.eqb Bool.eqb negb].
  rewrite bind_request_get, bind_emit. now left.
Qed.

(** C9, as the code has it: every request [update_bridge] makes about a
    scene (the detail fetch and the update) is for a scene of the scene
    cache it iterates whose name is "Circadian"; and with the switch on and
    both refreshes answered, every scene of that cache named "Circadian"
    that the loop reaches (no earlier scene's processing raised) has its
    detail fetched, whatever its member lights are: no light group is
    consulted. *)
Theorem scenes_acted_on_are_named_circadian
        (self : CircadianHueSwitch) (sensor : option CircadianValues)
        (bridge : HueBridge) (a : Api) :
  api bridge = Some a ->
  (forall m p j,
     In (Request m p j) (trace (update_bridge self sensor bridge)) ->
     exists scene,
       In scene (scenes_after a) /\
       scene_name scene = "Circadian" /\
       p = scene_path (scene_id scene)) /\
  (forall new_lights pre sid post scene,
     _state self = Some true ->
     scenes_update a <> UpdateFailed OtherException ->
     lights_update a = Updated new_lights ->
     map scene_id (scenes_after a) = pre ++ sid :: post ->
     (forall y, In y pre ->
                outcome (update_scene sensor a (scenes_after a) new_lights y)
                = Ok tt) ->
     lookup_scene sid (scenes_after a) = Some scene ->
     scene_name scene = "Circadian" ->
     In (Request GET (scene_path sid) None)
        (trace (update_bridge self sensor bridge))).
Proof.
  intros Hapi. split.
  - intros m p j H.
    destruct (_state self) as [[|]|] eqn:Hon;
      try (unfold update_bridge in H; rewrite Hon in H; destruct H).
    destruct (lights_update a) as [new_lights|f] eqn:El.
    + destruct (scenes_update a) as [items|[| |]] eqn:Es.
      1-3: rewrite (update_bridge_continues self sensor bridge a new_lights
                      Hon Hapi) in H
        by (rewrite ?Es; first [discriminate | assumption]);
        destruct H as [H|[H|H]]; try discriminate;
        now apply update_scenes_requests in H.
      unfold update_bridge in H. rewrite Hon, Hapi in H.
      cbn [of_option] in H.
      rewrite bind_lift_ok, Es in H. destruct H as [H|[]]. discriminate.
    + unfold update_bridge in H. rewrite Hon, Hapi in H.
      cbn [of_option] in H.
      rewrite bind_lift_ok, El in H.
      destruct (scenes_update a) as [items|[| |]], f;
        cbn in H; intuition discriminate.
  - intros new_lights pre sid post scene Hon Hs Hl Hids Hpre Hscene Hname.
    rewrite (update_bridge_reaches _ _ _ _ _ _ _ _ Hon Hapi Hs Hl Hids Hpre).
    apply in_or_app. right. apply in_or_app. left.
    now apply (update_scene_fetches _ _ _ _ _ _ Hscene Hname).
Qed.

Lemma scenes_acted_on_are_named_circadian_witness :
  (exists scene,
     In scene (scenes_after example_api) /\
     scene_name scene = "Circadian" /\
     scene_path "s1" = scene_path (scene_id scene)) /\
  In (Request GET (scene_path "s2") None)
     (trace (update_bridge (example_switch false (Some true))
                           (Some example_reading)
                           (example_bridge_with example_api_two_scenes))).
Proof.
  split.
  - apply (proj1 (scenes_acted_on_are_named_circadian
                    (example_switch false (Some true)) (Some example_reading)
                    example_bridge example_api eq_refl)
                 GET (scene_path "s1") None).
    cbn. right. right. left. reflexivity.
  - apply (proj2 (scenes_acted_on_are_named_circadian
                    (example_switch false (Some true)) (Some example_reading)
                    (example_bridge_with example_api_two_scenes)
                    example_api_two_scenes eq_refl)
                 example_lights ["s1"] "s2" [] example_scene2);
      try reflexivity.
    + discriminate.
    + intros y [<-|[]]. reflexivity.
Defined.

(** C9 as stated fails: the example scene is named "Circadian" and its
    members are not the lights of the group, so [is_circadian_scene] rejects
    it, and [update_bridge] fetches and rewrites it all the same. *)
Lemma circadian_scene_processed_without_group_match :
  is_circadian_scene example_group example_scene = false /\
  set_eq (group_lights example_group) (scene_lights example_scene) = false /\
  In example_scene (scenes_after example_api) /\
  In (Request GET (scene_path (scene_id example_scene)) None)
     (trace (update_bridge (example_switch false (Some true))
                           (Some example_reading) example_bridge)) /\
  exists json,
    In (Request PUT (scene_path (scene_id example_scene)) (Some json))
       (trace (update_bridge (example_switch false (Some true))
                             (Some example_reading) example_bridge)).
Proof.
  split; [reflexivity|]. split; [reflexivity|].
  split; [now left|]. split.
  - cbn. right. right. left. reflexivity.
  - eexists. cbn. right. right. right. left. reflexivity.
Qed.

(** ** A scene within the cycle *)

(** C3: in a cycle with the switch on and both refreshes answered, for a
    scene named "Circadian" that the loop reaches (no earlier scene's
    processing raised) and whose detail request, comparison and state
    computation go through: after the calls of the earlier scenes the cycle
    fetches the scene's detail, then puts the freshly computed state
    (brightness included) as the scene's [lightstates], whatever the two
    flags are; after the put has returned, every member light gets a
    [set_state] call exactly when the scene was judged active, and the
    scene gets no other call; the state pushed then has no brightness field
    exactly when [brightness_changed] is set; the calls of the later scenes
    follow. *)
Theorem scene_rewritten_and_pushed_when_active
        (self : CircadianHueSwitch) (sensor : option CircadianValues)
        (bridge : HueBridge) (a : Api) (new_lights : list Light)
        (pre post : list string) (sid : string) (scene : Scene)
        (detail : SceneDetail) (is_current_scene brightness_changed : bool)
        (members : list Light) (state : list (string * patch)) :
  _state self = Some true ->
  api bridge = Some a ->
  scenes_update a <> UpdateFailed OtherException ->
  lights_update a = Updated new_lights ->
  map scene_id (scenes_after a) = pre ++ sid :: post ->
  (forall y, In y pre ->
             outcome (update_scene sensor a (scenes_after a) new_lights y)
             = Ok tt) ->
  lookup_scene sid (scenes_after a) = Some scene ->
  scene_name scene = "Circadian" ->
  get_response a (scene_path sid) = Ok detail ->
  compare_lights new_lights (lightstates detail) =
    Ok (is_current_scene, brightness_changed) ->
  member_lights new_lights scene = Ok members ->
  get_lightstate sensor members true = Ok state ->
  exists live calls,
    get_lightstate sensor members (negb brightness_changed) = Ok live /\
    (forall id d, In (id, d) live ->
       (lookup "bri" d = None <-> brightness_changed = true)) /\
    calls =
      [Request GET (scene_path sid) None;
       Request PUT (scene_path sid) (Some [("lightstates", state)])] ++
      match put_response a (scene_path sid) with
      | Ok _ => if is_current_scene then set_state_events live else []
      | Raise _ => []
      end /\
    trace (update_bridge self sensor bridge) =
      (ApiUpdate Scenes :: ApiUpdate Lights ::
         flat_map (fun y => trace (update_scene sensor a (scenes_after a)
                                                new_lights y)) pre)
        ++ calls
        ++ match outcome (update_scene sensor a (scenes_after a)
                                       new_lights sid) with
           | Ok _ => trace (for_each post
                              (update_scene sensor a (scenes_after a)
                                            new_lights))
           | Raise _ => []
           end /\
    (put_response a (scene_path sid) = Ok tt ->
     forall light, In light members ->
       ((exists d, In (SetState (light_id light) d) calls) <->
        is_current_scene = true)).
Proof.
  intros Hon Hapi Hs Hl Hids Hpre Hscene Hname Hget Hcmp Hmem Hstate.
  destruct (get_lightstate_some _ _ _ _ Hstate) as [reading [Hsensor Hall]].
  pose proof (Hall (negb brightness_changed)) as Hlive.
  pose proof (update_scene_trace _ _ _ _ _ _ _ _ _ _ _ _
                Hscene Hname Hget Hcmp Hmem Hstate Hlive) as Htrace.
  eexists. eexists. split; [exact Hlive|]. split; [|split; [reflexivity|]].
  - intros id d Hin. apply fill_out_In in Hin.
    destruct Hin as [[]|[l [_ [_ ->]]]]. rewrite light_data_bri.
    destruct brightness_changed; cbn [negb]; split; congruence.
  - split.
    + rewrite (update_bridge_reaches _ _ _ _ _ _ _ _
                 Hon Hapi Hs Hl Hids Hpre).
      now rewrite Htrace.
    + intros Hput light Hlight. rewrite Hput. split.
      * intros [d [H|[H|H]]]; try discriminate.
        destruct is_current_scene; [reflexivity | contradiction].
      * intros ->.
        destruct (lookup_In (light_id light) _
                    (fill_out_covers (xy_color reading)
                       (brightness (percent reading))
                       (negb brightness_changed) members [] light Hlight))
          as [d Hd].
        exists d. right. right.
        apply (in_map (fun item => SetState (fst item) (snd item)) _ _ Hd).
Qed.

Lemma scene_rewritten_and_pushed_when_active_witness :
  exists live calls,
    get_lightstate (Some example_reading)
                   [ {| light_id := "B";
                        light_state :=
                          {| st_on := Some true; st_bri := Some 200;
                             st_xy := None |} |} ]
                   (negb false) = Ok live /\
    (forall id d, In (id, d) live ->
       (lookup "bri" d = None <-> false = true)) /\
    calls =
      [Request GET (scene_path "s2") None;
       Request PUT (scene_path "s2")
         (Some [("lightstates",
                 [("B", [("on", VBool true); ("bri", VInt 153);
                         ("transitiontime", VInt 20)])])])] ++
      match put_response example_api_two_scenes (scene_path "s2") with
      | Ok _ => if true then set_state_events live else []
      | Raise _ => []
      end /\
    trace (update_bridge (example_switch false (Some true))
                         (Some example_reading)
                         (example_bridge_with example_api_two_scenes)) =
      (ApiUpdate Scenes :: ApiUpdate Lights ::
         flat_map (fun y => trace (update_scene
                                     (Some example_reading)
                                     example_api_two_scenes
                                     (scenes_after example_api_two_scenes)
                                     example_lights y)) ["s1"])
        ++ calls
        ++ match outcome (update_scene
                            (Some example_reading) example_api_two_scenes
                            (scenes_after example_api_two_scenes)
                            example_lights "s2") with
           | Ok _ => trace (for_each []
                              (update_scene
                                 (Some example_reading)
                                 example_api_two_scenes
                                 (scenes_after example_api_two_scenes)
                                 example_lights))
           | Raise _ => []
           end /\
    (put_response example_api_two_scenes (scene_path "s2") = Ok tt ->
     forall light,
       In light [ {| light_id := "B";
                     light_state :=
                       {| st_on := Some true; st_bri := Some 200;
                          st_xy := None |} |} ] ->
       ((exists d, In (SetState (light_id light) d) calls) <->
        true = true)).
Proof.
  apply (scene_rewritten_and_pushed_when_active
           (example_switch false (Some true)) (Some example_reading)
           (example_bridge_with example_api_two_scenes)
           example_api_two_scenes example_lights ["s1"] [] "s2"
           example_scene2 {| lightstates := [("B", example_stored)] |}
           true false);
    try reflexivity.
  - discriminate.
  - intros y [<-|[]]. reflexivity.
Defined.

(** The cycle of the bridge with the two scenes, call by call. *)
Example update_bridge_two_scenes :
  trace (update_bridge (example_switch false (Some true))
                       (Some example_reading)
                       (example_bridge_with example_api_two_scenes)) =
  [ ApiUpdate Scenes; ApiUpdate Lights;
    Request GET "scenes/s1" None;
    Request PUT "scenes/s1"
      (Some [("lightstates",
              [("A", [("on", VBool true); ("bri", VInt 153);
                      ("transitiontime", VInt 20)]);
               ("B", [("on", VBool true); ("bri", VInt 153);
                      ("transitiontime", VInt 20)])])]);
    SetState "A" [("on", VBool true); ("transitiontime", VInt 20)];
    SetState "B" [("on", VBool true); ("transitiontime", VInt 20)];
    Request GET "scenes/s2" None;
    Request PUT "scenes/s2"
      (Some [("lightstates",
              [("B", [("on", VBool true); ("bri", VInt 153);
                      ("transitiontime", VInt 20)])])]);
    SetState "B" [("on", VBool true); ("bri", VInt 153);
                  ("transitiontime", VInt 20)] ].
Proof. reflexivity. Qed.

(** * Further properties of the code *)

(** ** [is_circadian_scene] and [get_bridges] *)

(** [is_circadian_scene] holds exactly when the scene is named "Circadian"
    and the group and the scene have the same lights as sets: order and
    repetitions in either list do not matter. *)
Theorem is_circadian_scene_iff (group : Group) (scene : Scene) :
  is_circadian_scene group scene = true <->
  (forall id, In id (group_lights group) <-> In id (scene_lights scene)) /\
  scene_name scene = "Circadian".
Proof.
  unfold is_circadian_scene.
  now rewrite andb_true_iff, set_eq_spec, String.eqb_eq.
Qed.

Lemma In_flat_map_bridges (entries : list hue_entry) (b : HueBridge) :
  In b (flat_map
          (fun entry =>
             match entry with
             | BridgeEntry b =>
                 match api b with Some _ => [b] | None => [] end
             | OtherEntry => []
             end)
          entries) <->
  In (BridgeEntry b) entries /\ api b <> None.
Proof.
  rewrite in_flat_map. split.
  - intros [[b'|] [Hin H]]; [|destruct H].
    destruct (api b') eqn:E; [|destruct H].
    destruct H as [<-|[]]. split; [assumption | congruence].
  - intros [Hin Hapi]. exists (BridgeEntry b). split; [assumption|].
    destruct (api b); [now left | congruence].
Qed.

(** [get_bridges] raises [KeyError] when the hue integration has stored
    nothing; otherwise it returns, in the order of the entries, exactly the
    entries that are bridges with an api, so every bridge it returns has
    one. *)
Theorem get_bridges_spec (hass : Hass) :
  match hue_data hass with
  | None => get_bridges hass = Raise KeyError
  | Some entries =>
      exists bridges,
        get_bridges hass = Ok bridges /\
        (forall b, In b bridges <->
                   In (BridgeEntry b) entries /\ api b <> None) /\
        (forall b, In b bridges -> exists a, api b = Some a) /\
        (List.length bridges <= List.length entries)%nat
  end.
Proof.
  unfold get_bridges. destruct (hue_data hass) as [entries|]; [|reflexivity].
  cbn [of_option rbind]. eexists. split; [reflexivity|].
  split; [apply In_flat_map_bridges|]. split.
  - intros b H. apply In_flat_map_bridges in H. destruct H as [_ H].
    destruct (api b) as [a|]; [now exists a | congruence].
  - induction entries as [|[b|] entries IH]; cbn [flat_map List.length];
      [apply le_n | | now apply le_S].
    rewrite length_app. destruct (api b); cbn [List.length app plus].
    + now apply le_n_S.
    + now apply le_S.
Qed.

(** ** The comparison loop on entries it cannot read *)

Lemma compare_light_raises (lights : list Light) (acc : bool * bool)
      (item : string * LightState) :
  comparable lights item = false ->
  compare_light lights acc item = Raise KeyError.
Proof.
  destruct acc as [a b], item as [id state].
  unfold comparable, compare_light. cbn [fst snd].
  destruct (lookup_light id lights) as [light|]; [|reflexivity].
  cbn [of_option rbind]. cbv zeta.
  destruct (st_on (light_state light)); [|reflexivity].
  destruct (st_on state); [|reflexivity].
  destruct (st_bri (light_state light)); [|reflexivity].
  destruct (st_bri state); [|reflexivity].
  cbn [of_option rbind present andb].
  destruct (st_xy (light_state light)), (st_xy state); try discriminate.
  reflexivity.
Qed.

Lemma compare_fold_raises (lights : list Light)
      (lightstates : list (string * LightState)) :
  forallb (comparable lights) lightstates = false ->
  forall acc,
    fold_result (compare_light lights) acc lightstates = Raise KeyError.
Proof.
  induction lightstates as [|item rest IH]; cbn [forallb fold_result];
    [discriminate|].
  intros H [a b]. destruct (comparable lights item) eqn:E.
  - rewrite (compare_light_step _ _ _ _ E). cbn [rbind]. now apply IH.
  - now rewrite (compare_light_raises _ _ _ E).
Qed.

Lemma not_comparable_iff (lights : list Light) (id : string)
      (state : LightState) :
  comparable lights (id, state) = false <->
  lookup_light id lights = None \/
  exists light,
    lookup_light id lights = Some light /\
    (st_on (light_state light) = None \/ st_on state = None \/
     st_bri (light_state light) = None \/ st_bri state = None \/
     (st_xy (light_state light) <> None /\ st_xy state = None)).
Proof.
  unfold comparable. cbn [fst snd].
  destruct (lookup_light id lights) as [light|]; [|split; [now left|reflexivity]].
  split.
  - intros H. right. exists light. split; [reflexivity|].
    destruct (st_on (light_state light)); [|now left].
    destruct (st_on state); [|right; now left].
    destruct (st_bri (light_state light)); [|right; right; now left].
    destruct (st_bri state); [|right; right; right; now left].
    right; right; right; right. cbn [present andb] in H.
    destruct (st_xy (light_state light)), (st_xy state); try discriminate.
    split; congruence.
  - intros [H|[light' [Hl H]]]; [discriminate|].
    inversion Hl. subst light'.
    destruct H as [->|[->|[->|[->|[Hc ->]]]]]; cbn [present andb];
      rewrite ?andb_false_r; try reflexivity.
    destruct (st_xy (light_state light)); [|congruence].
    cbn [present negb orb]. now rewrite andb_false_r.
Qed.

(** The comparison loop raises, and then it is a [KeyError], exactly when
    some entry of [lightstates] names a light that is not in the light
    cache, or the live or the stored state of its light has no [on] or no
    [bri], or the light has a live xy and no stored xy; otherwise it returns
    its two flags. *)
Theorem compare_lights_raises_iff (lights : list Light)
        (lightstates : list (string * LightState)) :
  (compare_lights lights lightstates = Raise KeyError <->
   exists id state,
     In (id, state) lightstates /\
     (lookup_light id lights = None \/
      exists light,
        lookup_light id lights = Some light /\
        (st_on (light_state light) = None \/ st_on state = None \/
         st_bri (light_state light) = None \/ st_bri state = None \/
         (st_xy (light_state light) <> None /\ st_xy state = None)))) /\
  ((exists flags, compare_lights lights lightstates = Ok flags) <->
   forallb (comparable lights) lightstates = true) /\
  (forall e, compare_lights lights lightstates = Raise e -> e = KeyError).
Proof.
  assert (Hbad : forallb (comparable lights) lightstates = false <->
                 exists id state,
                   In (id, state) lightstates /\
                   comparable lights (id, state) = false).
  { split.
    - intros H. induction lightstates as [|[id state] rest IH];
        [discriminate|].
      cbn [forallb] in H. apply andb_false_iff in H. destruct H as [H|H].
      + exists id, state. split; [now left | assumption].
      + destruct (IH H) as [id' [state' [Hin H']]].
        exists id', state'. split; [now right | assumption].
    - intros [id [state [Hin H]]].
      destruct (forallb (comparable lights) lightstates) eqn:E;
        [|reflexivity].
      rewrite forallb_forall in E. specialize (E _ Hin). congruence. }
  unfold compare_lights.
  destruct (forallb (comparable lights) lightstates) eqn:E.
  - rewrite (compare_fold _ _ _ _ E). split; [|split].
    + split; [discriminate|]. intros [id [state [Hin H]]].
      apply not_comparable_iff in H.
      assert (Hf : true = false) by (apply Hbad; now exists id, state).
      discriminate.
    + split; [reflexivity|]. intros _. eexists. reflexivity.
    + discriminate.
  - rewrite (compare_fold_raises _ _ E). split; [|split].
    + split; [|reflexivity]. intros _.
      destruct (proj1 Hbad eq_refl) as [id [state [Hin H]]].
      exists id, state. split; [assumption|]. now apply not_comparable_iff.
    + split; [intros [flags H]; discriminate | discriminate].
    + intros e H. now inversion H.
Qed.

(** ** The xy comparison against the stored x-coordinate *)

(** A light whose live [y] differs from the stored [x] by more than 0.02, in
    the code's float comparison, makes the comparison end with
    [is_current_scene] false, whatever else holds: in particular a scene
    whose lights show exactly the stored xy is judged not active as soon as
    one light's [x] and [y] differ by more than 0.02. *)
Theorem off_diagonal_xy_judged_inactive (lights : list Light)
        (lightstates : list (string * LightState)) (id : string)
        (state : LightState) (light : Light) (cxy sxy : float * float) :
  forallb (comparable lights) lightstates = true ->
  In (id, state) lightstates ->
  lookup_light id lights = Some light ->
  st_xy (light_state light) = Some cxy ->
  st_xy state = Some sxy ->
  xy_differs (snd cxy) (fst sxy) = true ->
  exists brightness_changed,
    compare_lights lights lightstates = Ok (false, brightness_changed).
Proof.
  intros Hc Hin Hl Hcxy Hsxy Hfar. unfold compare_lights.
  rewrite (compare_fold _ _ _ _ Hc). cbn [andb]. eexists. f_equal. f_equal.
  destruct (forallb (item_active lights) lightstates) eqn:E; [|reflexivity].
  rewrite forallb_forall in E, Hc. pose proof (E _ Hin) as Ei.
  apply (item_active_spec _ _ _ _ (Hc _ Hin) Hl) in Ei.
  destruct Ei as [_ Ei]. destruct (Ei _ _ Hcxy Hsxy) as [_ H]. congruence.
Qed.

Lemma off_diagonal_xy_judged_inactive_witness :
  exists brightness_changed,
    compare_lights example_colour_lights [("C", example_colour_state)] =
    Ok (false, brightness_changed).
Proof.
  apply (off_diagonal_xy_judged_inactive
           example_colour_lights [("C", example_colour_state)] "C"
           example_colour_state
           {| light_id := "C"; light_state := example_colour_state |}
           (0.45%float, 0.41%float) (0.45%float, 0.41%float));
    try reflexivity.
  now left.
Defined.

(** ** The member lights of a scene *)

(** [member_lights] returns the cached lights of the scene's ids, in the
    scene's order, each stored under its own id; it raises, and then a
    [KeyError], exactly when some id of the scene is not in the cache. *)
Theorem member_lights_spec (lights : list Light) (scene : Scene) :
  match member_lights lights scene with
  | Ok members =>
      map light_id members = scene_lights scene /\
      (forall light, In light members ->
                     lookup_light (light_id light) lights = Some light) /\
      (forall id, In id (scene_lights scene) ->
                  lookup_light id lights <> None)
  | Raise e =>
      e = KeyError /\
      exists id, In id (scene_lights scene) /\ lookup_light id lights = None
  end.
Proof.
  destruct (member_lights lights scene) as [members|e] eqn:E.
  - split; [|split].
    + unfold member_lights in E. revert members E.
      induction (scene_lights scene) as [|id ids IH]; cbn [map_result];
        intros members E.
      * now inversion E.
      * destruct (lookup_light id lights) as [l|] eqn:El; [|discriminate].
        cbn [of_option rbind] in E.
        destruct (map_result _ ids) as [ms|]; [|discriminate].
        cbn [rbind] in E. inversion E. cbn [map].
        now rewrite (IH ms eq_refl), (lookup_light_id _ _ _ El).
    + now apply (member_lights_lookup _ _ _ E).
    + unfold member_lights in E. revert members E.
      induction (scene_lights scene) as [|id ids IH]; cbn [map_result];
        intros members E id' [].
      * subst id'. destruct (lookup_light id lights); [discriminate|].
        discriminate.
      * destruct (lookup_light id lights) as [l|]; [|discriminate].
        cbn [of_option rbind] in E.
        destruct (map_result _ ids) as [ms|]; [|discriminate].
        now apply (IH ms eq_refl).
  - unfold member_lights in E.
    induction (scene_lights scene) as [|id ids IH]; cbn [map_result] in E;
      [discriminate|].
    destruct (lookup_light id lights) as [l|] eqn:El.
    + cbn [of_option rbind] in E.
      destruct (map_result _ ids) as [ms|e'] eqn:Em; [discriminate|].
      cbn [rbind] in E. inversion E. subst e'.
      destruct (IH eq_refl) as [He [id' [Hin Hn]]].
      split; [assumption|]. exists id'. split; [now right | assumption].
    + cbn [of_option rbind] in E. inversion E.
      split; [reflexivity|]. exists id. split; [now left | assumption].
Qed.

(** ** The dict [get_lightstate] returns *)

Lemma lookup_dict_set_other {V} (k k' : string) (v : V)
      (d : list (string * V)) :
  k <> k' -> lookup k' (dict_set k v d) = lookup k' d.
Proof.
  intros Hne. unfold lookup.
  induction d as [|[k0 v0] d IH]; cbn [dict_set find fst].
  - apply String.eqb_neq in Hne. now rewrite Hne.
  - destruct (String.eqb k0 k) eqn:E; cbn [find fst].
    + apply String.eqb_eq in E. subst k0.
      apply String.eqb_neq in Hne. now rewrite Hne.
    + destruct (String.eqb k0 k'); [reflexivity | exact IH].
Qed.

Lemma dict_set_fresh {V} (k : string) (v : V) (d : list (string * V)) :
  ~ In k (map fst d) -> dict_set k v d = d ++ [(k, v)].
Proof.
  induction d as [|[k0 v0] d IH]; cbn [dict_set map fst app In]; intros H.
  - reflexivity.
  - destruct (String.eqb k0 k) eqn:E.
    + apply String.eqb_eq in E. exfalso. apply H. now left.
    + rewrite IH; [reflexivity|]. intros Hin. apply H. now right.
Qed.

Lemma dict_set_keys {V} (k : string) (v : V) (d : list (string * V)) :
  In k (map fst d) -> map fst (dict_set k v d) = map fst d.
Proof.
  induction d as [|[k0 v0] d IH]; cbn [dict_set map fst In]; intros H.
  - destruct H.
  - destruct (String.eqb k0 k) eqn:E; cbn [map fst].
    + apply String.eqb_eq in E. now subst.
    + apply String.eqb_neq in E. destruct H as [H|H]; [congruence|].
      now rewrite IH.
Qed.

Lemma dict_set_NoDup {V} (k : string) (v : V) (d : list (string * V)) :
  NoDup (map fst d) -> NoDup (map fst (dict_set k v d)).
Proof.
  intros H. destruct (in_dec string_dec k (map fst d)) as [Hin|Hout].
  - now rewrite dict_set_keys.
  - rewrite (dict_set_fresh _ _ _ Hout), map_app. cbn [map fst].
    apply NoDup_app; [assumption | repeat constructor; intros [] |].
    intros x Hx [<-|[]]. contradiction.
Qed.

Lemma find_append {A} (f : A -> bool) (xs ys : list A) :
  find f (xs ++ ys) =
  match find f xs with Some x => Some x | None => find f ys end.
Proof.
  induction xs as [|x xs IH]; cbn [app find]; [reflexivity|].
  destruct (f x); [reflexivity | exact IH].
Qed.

Section OutDict.
Variables (xy : float * float) (b : Q) (flag : bool).

Lemma fill_out_NoDup (lights : list Light) :
  forall out, NoDup (map fst out) ->
              NoDup (map fst (fill_out xy b flag lights out)).
Proof.
  induction lights as [|l lights IH]; cbn [fill_out]; intros out H;
    [assumption|].
  apply IH. now apply dict_set_NoDup.
Qed.

Lemma fill_out_lookup (lights : list Light) :
  forall out id,
    lookup id (fill_out xy b flag lights out) =
    match last_light id lights with
    | Some light => Some (light_data xy b flag light)
    | None => lookup id out
    end.
Proof.
  unfold last_light.
  induction lights as [|l lights IH]; cbn [fill_out rev]; intros out id.
  - reflexivity.
  - rewrite IH.
    destruct (find (fun l0 => String.eqb (light_id l0) id) (rev lights))
      as [l'|] eqn:E.
    + now rewrite find_append, E.
    + rewrite find_append, E. cbn [find].
      destruct (String.eqb (light_id l) id) eqn:El.
      * apply String.eqb_eq in El. subst id. apply lookup_dict_set_same.
      * apply String.eqb_neq in El. now apply lookup_dict_set_other.
Qed.

Lemma fill_out_distinct (lights : list Light) :
  forall out,
    NoDup (map fst out ++ map light_id lights) ->
    fill_out xy b flag lights out =
    out ++ map (fun l => (light_id l, light_data xy b flag l)) lights.
Proof.
  induction lights as [|l lights IH]; cbn [fill_out map]; intros out H.
  - now rewrite app_nil_r.
  - assert (Hfresh : ~ In (light_id l) (map fst out)).
    { intros Hin. apply NoDup_remove_2 in H. apply H.
      apply in_or_app. now left. }
    rewrite (dict_set_fresh _ _ _ Hfresh), IH.
    + now rewrite <- app_assoc.
    + rewrite map_app. cbn [map fst]. rewrite <- app_assoc. exact H.
Qed.
End OutDict.

(** With the sensor published, the dict [get_lightstate] returns has one
    entry per light id: its keys are distinct, a key is looked up to the
    patch of the last input light with that id and an id of no input light
    to nothing, and for lights with distinct ids it is the list of their
    patches in the order of the input. *)
Theorem get_lightstate_dict (reading : CircadianValues)
        (lights : list Light) (set_brightness : bool) :
  exists out,
    get_lightstate (Some reading) lights set_brightness = Ok out /\
    NoDup (map fst out) /\
    (forall id,
       lookup id out =
       match last_light id lights with
       | Some light =>
           Some (light_data (xy_color reading) (brightness (percent reading))
                            set_brightness light)
       | None => None
       end) /\
    (NoDup (map light_id lights) ->
     out = map (fun l =>
                  (light_id l,
                   light_data (xy_color reading)
                              (brightness (percent reading))
                              set_brightness l))
               lights).
Proof.
  eexists. split; [reflexivity|]. split; [|split].
  - apply fill_out_NoDup. constructor.
  - intros id. rewrite fill_out_lookup. reflexivity.
  - intros H. now rewrite fill_out_distinct.
Qed.

Lemma without_key_dict_set {V} (f : V -> V) (k : string) (v : V)
      (d : list (string * V)) :
  map (fun item => (fst item, f (snd item))) (dict_set k v d) =
  dict_set k (f v) (map (fun item => (fst item, f (snd item))) d).
Proof.
  induction d as [|[k0 v0] d IH]; cbn [dict_set map fst snd];
    [reflexivity|].
  destruct (String.eqb k0 k); cbn [map fst snd]; [reflexivity|].
  now rewrite IH.
Qed.

Lemma light_data_without_bri (xy : float * float) (b : Q) (light : Light) :
  without_key "bri" (light_data xy b true light) = light_data xy b false light.
Proof.
  unfold light_data. destruct (has_xy (light_state light)); reflexivity.
Qed.

Lemma fill_out_without_bri (xy : float * float) (b : Q)
      (lights : list Light) :
  forall out_true out_false,
    map (fun item => (fst item, without_key "bri" (snd item))) out_true =
    out_false ->
    map (fun item => (fst item, without_key "bri" (snd item)))
        (fill_out xy b true lights out_true) =
    fill_out xy b false lights out_false.
Proof.
  induction lights as [|l lights IH]; cbn [fill_out]; intros o1 o2 H;
    [exact H|].
  apply IH. rewrite without_key_dict_set, light_data_without_bri.
  now rewrite H.
Qed.

(** The state computed without brightness is the state computed with it,
    each patch with its [bri] field taken out and nothing else changed: what
    an active scene's lights are sent after a manual brightness change is
    what was stored in the scene, less the brightness. *)
Theorem get_lightstate_without_brightness (sensor : option CircadianValues)
        (lights : list Light) (state : list (string * patch)) :
  get_lightstate sensor lights true = Ok state ->
  get_lightstate sensor lights false =
  Ok (map (fun item => (fst item, without_key "bri" (snd item))) state).
Proof.
  intros H. destruct (get_lightstate_some _ _ _ _ H) as [reading [-> Hall]].
  rewrite Hall in H. inversion H. rewrite Hall. f_equal. symmetry.
  now apply fill_out_without_bri.
Qed.

Lemma get_lightstate_without_brightness_witness :
  get_lightstate (Some example_reading) example_lights false =
  Ok (map (fun item => (fst item, without_key "bri" (snd item)))
          [("A", [("on", VBool true); ("bri", VInt 153);
                  ("transitiontime", VInt 20)]);
           ("B", [("on", VBool true); ("bri", VInt 153);
                  ("transitiontime", VInt 20)])]).
Proof.
  apply (get_lightstate_without_brightness (Some example_reading)
                                           example_lights).
  reflexivity.
Defined.

(** ** The integer brightness *)


Lemma py_int_integer (n : Z) : py_int (inject_Z n) = n.
Proof. unfold py_int, inject_Z. cbn [Qnum Qden]. apply Z.quot_1_r. Qed.




(** ** The poll cycle as a whole *)

Lemma set_lock_round_trip (self : CircadianHueSwitch) :
  lock self = false -> set_lock false (set_lock true self) = self.
Proof. destruct self as [l n s]. cbn. now intros ->. Qed.

Lemma poll_with_free_guard (self : CircadianHueSwitch) (hass : Hass)
      (now : option Z) :
  lock self = false ->
  async_update_info self hass now =
  {| poll_self := self;
     poll_trace := fst (poll_body self hass now);
     poll_result := snd (poll_body self hass now) |}.
Proof.
  intros H. unfold async_update_info, lock_acquire_nonblocking.
  rewrite H. cbn [negb].
  rewrite finally_release_frees by reflexivity.
  now rewrite set_lock_round_trip.
Qed.

Lemma poll_with_held_guard (self : CircadianHueSwitch) (hass : Hass)
      (now : option Z) :
  lock self = true ->
  async_update_info self hass now =
  {| poll_self := self; poll_trace := []; poll_result := Ok tt |}.
Proof.
  intros H. unfold async_update_info, lock_acquire_nonblocking.
  now rewrite H.
Qed.

Lemma In_poll_bridges (self : CircadianHueSwitch)
      (sensor : option CircadianValues) (schedule : list nat)
      (bridges : list HueBridge) (ev : poll_event) :
  In ev (asyncio_wait
           schedule
           (map (fun bridge => (host bridge, update_bridge self sensor bridge))
                bridges)) <->
  exists b e,
    In b bridges /\ In e (trace (update_bridge self sensor b)) /\
    ev = OnBridge (host b) e.
Proof.
  rewrite In_asyncio_wait. split.
  - intros [task [e [Htask [He ->]]]]. apply in_map_iff in Htask.
    destruct Htask as [b [<- Hb]]. now exists b, e.
  - intros [b [e [Hb [He ->]]]].
    exists (host b, update_bridge self sensor b), e. split; [|now split].
    apply in_map_iff. now exists b.
Qed.

Lemma update_bridge_not_on (self : CircadianHueSwitch)
      (sensor : option CircadianValues) (bridge : HueBridge) :
  _state self <> Some true -> trace (update_bridge self sensor bridge) = [].
Proof.
  intros H. unfold update_bridge.
  destruct (_state self) as [[|]|]; [congruence | reflexivity | reflexivity].
Qed.

(** A poll cycle never changes the entity: not its on/off state, and the
    guard is as it was found, held or free, whatever the cycle did. *)
Theorem poll_leaves_entity_unchanged (self : CircadianHueSwitch)
        (hass : Hass) (now : option Z) :
  poll_self (async_update_info self hass now) = self.
Proof.
  destruct (lock self) eqn:E.
  - now rewrite poll_with_held_guard.
  - now rewrite poll_with_free_guard.
Qed.

(** While the switch is not on, a poll cycle calls no bridge, whatever
    bridges are known and whether or not the guard is held. *)
Theorem poll_off_calls_no_bridge (self : CircadianHueSwitch) (hass : Hass)
        (now : option Z) (host : string) (e : event) :
  _state self <> Some true ->
  ~ In (OnBridge host e) (poll_trace (async_update_info self hass now)).
Proof.
  intros Hoff Hin. destruct (lock self) eqn:E.
  - rewrite poll_with_held_guard in Hin by assumption. destruct Hin.
  - rewrite poll_with_free_guard in Hin by assumption.
    cbn [poll_trace] in Hin. unfold poll_body in Hin.
    destruct (get_bridges hass) as [[|b bridges]|]; cbn [fst] in Hin.
    + destruct now; [destruct Hin as [H|[]]; discriminate | destruct Hin].
    + apply In_poll_bridges in Hin. destruct Hin as [b' [e' [_ [He _]]]].
      now rewrite (update_bridge_not_on _ _ _ Hoff) in He.
    + destruct Hin.
Qed.

Lemma poll_off_calls_no_bridge_witness :
  ~ In (OnBridge "192.168.1.2" (ApiUpdate Scenes))
       (poll_trace
          (async_update_info (fst (turn_off (example_switch false (Some true))))
                             (example_hass (Some [BridgeEntry example_bridge]))
                             (Some 15))) /\
  In (OnBridge "192.168.1.2" (ApiUpdate Scenes))
     (poll_trace
        (async_update_info (example_switch false (Some true))
                           (example_hass (Some [BridgeEntry example_bridge]))
                           (Some 15))).
Proof.
  split.
  - apply (poll_off_calls_no_bridge
             (fst (turn_off (example_switch false (Some true))))).
    discriminate.
  - cbn. left. reflexivity.
Defined.

(** A poll cycle sleeps exactly when it found the guard free, the hue
    integration's data there but no bridge with an api in it, and was called
    with a time (a scheduled call); the sleep is then 5 seconds. *)
Theorem poll_sleeps_iff (self : CircadianHueSwitch) (hass : Hass)
        (now : option Z) (seconds : Z) :
  In (Sleep seconds) (poll_trace (async_update_info self hass now)) <->
  lock self = false /\ get_bridges hass = Ok [] /\ now <> None /\
  seconds = 5.
Proof.
  destruct (lock self) eqn:E.
  - rewrite poll_with_held_guard by assumption. cbn [poll_trace In].
    split; [intros [] | intros [H _]; discriminate].
  - rewrite poll_with_free_guard by assumption. cbn [poll_trace].
    unfold poll_body.
    destruct (get_bridges hass) as [[|b bridges]|]; cbn [fst].
    + destruct now as [t|]; cbn [In].
      * split.
        -- intros [H|[]]. inversion H. repeat split. discriminate.
        -- intros [_ [_ [_ ->]]]. now left.
      * split; [intros [] | intros [_ [_ [H _]]]; congruence].
    + split.
      * intros H. apply In_poll_bridges in H.
        destruct H as [b' [e' [_ [_ H]]]]. discriminate.
      * intros [_ [H _]]. discriminate.
    + cbn [In]. split; [intros [] | intros [_ [H _]]; discriminate].
Qed.

(** With the guard free and at least one bridge with an api, the cycle
    returns without an exception whether or not some bridge's update raised,
    and the calls it made are exactly the calls of the updates of the
    bridges [get_bridges] returned, in whatever order the event loop let
    them happen: a failing bridge does not keep the others from being
    updated. *)
Theorem poll_updates_every_bridge (self : CircadianHueSwitch) (hass : Hass)
        (now : option Z) (bridges : list HueBridge) :
  lock self = false ->
  get_bridges hass = Ok bridges ->
  bridges <> [] ->
  poll_result (async_update_info self hass now) = Ok tt /\
  (forall ev,
     In ev (poll_trace (async_update_info self hass now)) <->
     exists b e,
       In b bridges /\
       In e (trace (update_bridge self (circadian_values hass) b)) /\
       ev = OnBridge (host b) e).
Proof.
  intros Hfree Hb Hne.
  rewrite poll_with_free_guard by assumption.
  cbn [poll_result poll_trace]. unfold poll_body. rewrite Hb.
  destruct bridges as [|b bs]; [congruence|]. cbn [fst snd].
  split; [reflexivity|]. intros ev. apply In_poll_bridges.
Qed.

Lemma poll_updates_every_bridge_witness :
  outcome (update_bridge (example_switch false (Some true))
                         (Some example_reading) example_broken_bridge) =
    Raise RequestError /\
  poll_result
    (async_update_info (example_switch false (Some true))
                       example_hass_two_bridges None) = Ok tt /\
  (forall ev,
     In ev (poll_trace
              (async_update_info (example_switch false (Some true))
                                 example_hass_two_bridges None)) <->
     exists b e,
       In b [example_broken_bridge; example_bridge] /\
       In e (trace (update_bridge (example_switch false (Some true))
                                  (circadian_values example_hass_two_bridges)
                                  b)) /\
       ev = OnBridge (host b) e).
Proof.
  split; [reflexivity|].
  apply (poll_updates_every_bridge
           (example_switch false (Some true)) example_hass_two_bridges
           None [example_broken_bridge; example_bridge] eq_refl eq_refl).
  discriminate.
Defined.

(** The poll of the two example bridges, as the example schedule orders it:
    the calls of the second bridge come first and the one call of the
    failing bridge falls between them. *)
Example poll_two_bridges_interleaved :
  firstn 3 (poll_trace
              (async_update_info (example_switch false (Some true))
                                 example_hass_two_bridges None)) =
  [ OnBridge "192.168.1.2" (ApiUpdate Scenes);
    OnBridge "192.168.1.3" (ApiUpdate Scenes);
    OnBridge "192.168.1.2" (ApiUpdate Lights) ].
Proof. reflexivity. Qed.

(** ** The loop over the scenes *)

Lemma for_each_all_ok {A} (xs : list A) (body : A -> M unit) :
  (forall x, In x xs -> outcome (body x) = Ok tt) ->
  for_each xs body = (flat_map (fun x => trace (body x)) xs, Ok tt).
Proof.
  induction xs as [|x xs IH]; cbn [for_each flat_map]; intros H;
    [reflexivity|].
  rewrite IH by (intros y Hy; apply H; now right).
  specialize (H x (or_introl eq_refl)).
  destruct (body x) as [t r]. cbn [outcome snd] in H. subst r.
  reflexivity.
Qed.

Lemma for_each_stops {A} (pre post : list A) (x : A) (body : A -> M unit)
      (e : exn) :
  (forall y, In y pre -> outcome (body y) = Ok tt) ->
  outcome (body x) = Raise e ->
  for_each (pre ++ x :: post) body =
  (flat_map (fun y => trace (body y)) pre ++ trace (body x), Raise e).
Proof.
  intros Hpre Hx.
  induction pre as [|y pre IH]; cbn [app for_each flat_map].
  - destruct (body x) as [t r]. cbn [outcome snd] in Hx. subst r.
    reflexivity.
  - rewrite IH by (intros z Hz; apply Hpre; now right).
    specialize (Hpre y (or_introl eq_refl)).
    destruct (body y) as [t r]. cbn [outcome snd] in Hpre. subst r.
    cbn [bind trace fst]. now rewrite app_assoc.
Qed.

(** The scenes of the cache are processed in the order of the cache, one
    after the other; when the processing of one raises, the exception ends
    the loop: the scenes after it are not looked at, and the exception is the
    loop's. *)
Theorem scene_exception_ends_the_loop
        (sensor : option CircadianValues) (a : Api) (scenes : list Scene)
        (lights : list Light) :
  ((forall sid, In sid (map scene_id scenes) ->
                outcome (update_scene sensor a scenes lights sid) = Ok tt) ->
   update_scenes sensor a scenes lights =
   (flat_map (fun sid => trace (update_scene sensor a scenes lights sid))
             (map scene_id scenes),
    Ok tt)) /\
  (forall pre sid post e,
     map scene_id scenes = pre ++ sid :: post ->
     (forall y, In y pre ->
                outcome (update_scene sensor a scenes lights y) = Ok tt) ->
     outcome (update_scene sensor a scenes lights sid) = Raise e ->
     update_scenes sensor a scenes lights =
     (flat_map (fun y => trace (update_scene sensor a scenes lights y)) pre
        ++ trace (update_scene sensor a scenes lights sid),
      Raise e)).
Proof.
  unfold update_scenes. split.
  - apply for_each_all_ok.
  - intros pre sid post e -> Hpre Hsid. now apply for_each_stops.
Qed.

Lemma scene_exception_ends_the_loop_witness :
  update_scenes (Some example_reading) example_api_failing_detail
                [example_scene; example_scene2] example_lights =
    ([] ++ trace (update_scene (Some example_reading)
                               example_api_failing_detail
                               [example_scene; example_scene2]
                               example_lights "s1"),
     Raise RequestError) /\
  update_bridge (example_switch false (Some true)) (Some example_reading)
                (example_bridge_with example_api_failing_detail) =
    ([ApiUpdate Scenes; ApiUpdate Lights; Request GET "scenes/s1" None],
     Raise RequestError).
Proof.
  split; [|reflexivity].
  apply (proj2 (scene_exception_ends_the_loop
                  (Some example_reading) example_api_failing_detail
                  [example_scene; example_scene2] example_lights)
               [] "s1" ["s2"] RequestError eq_refl).
  - intros y [].
  - reflexivity.
Defined.

Lemma lookup_scene_some (sid : string) (scenes : list Scene) :
  In sid (map scene_id scenes) ->
  exists scene, lookup_scene sid scenes = Some scene.
Proof.
  unfold lookup_scene.
  induction scenes as [|s scenes IH]; cbn [map In find]; [intros []|].
  intros [H|H].
  - subst sid. rewrite String.eqb_refl. now exists s.
  - destruct (String.eqb (scene_id s) sid); [now exists s | now apply IH].
Qed.

Lemma for_each_silent {A} (xs : list A) (body : A -> M unit) :
  (forall x, In x xs -> body x = ([], Ok tt)) ->
  for_each xs body = ([], Ok tt).
Proof.
  induction xs as [|x xs IH]; cbn [for_each]; intros H; [reflexivity|].
  rewrite (H x (or_introl eq_refl)).
  change (@pair (list event) (result unit) [] (Ok tt)) with (ret tt).
  rewrite bind_ret.
  apply IH. intros y Hy. apply H. now right.
Qed.

Lemma update_scene_skips (sensor : option CircadianValues) (a : Api)
      (scenes : list Scene) (lights : list Light) (sid : string)
      (scene : Scene) :
  lookup_scene sid scenes = Some scene ->
  scene_name scene <> "Circadian" ->
  update_scene sensor a scenes lights sid = ([], Ok tt).
Proof.
  intros Hscene Hname. unfold update_scene.
  rewrite Hscene. cbn [of_option]. rewrite bind_lift_ok.
  apply String.eqb_neq in Hname. now rewrite Hname.
Qed.

(** With the switch on and both refreshes answered, a bridge whose scene
    cache has no scene named "Circadian" (an empty cache included) gets the
    two refresh calls and nothing else. *)
Theorem no_circadian_scene_only_refreshes
        (self : CircadianHueSwitch) (sensor : option CircadianValues)
        (bridge : HueBridge) (a : Api) (new_lights : list Light) :
  _state self = Some true ->
  api bridge = Some a ->
  scenes_update a <> UpdateFailed OtherException ->
  lights_update a = Updated new_lights ->
  (forall scene, In scene (scenes_after a) ->
                 scene_name scene <> "Circadian") ->
  update_bridge self sensor bridge =
  ([ApiUpdate Scenes; ApiUpdate Lights], Ok None).
Proof.
  intros Hon Hapi Hs Hl Hnone.
  rewrite (update_bridge_continues _ _ _ _ _ Hon Hapi Hs Hl).
  assert (Hloop : update_scenes sensor a (scenes_after a) new_lights =
                  ([], Ok tt)).
  { unfold update_scenes. apply for_each_silent. intros sid Hin.
    destruct (lookup_scene_some _ _ Hin) as [scene Hscene].
    apply (update_scene_skips _ _ _ _ _ _ Hscene).
    apply Hnone. now apply (lookup_scene_In _ _ _ Hscene). }
  now rewrite Hloop.
Qed.

Lemma no_circadian_scene_only_refreshes_witness :
  update_bridge (example_switch false (Some true)) (Some example_reading)
                (example_bridge_with example_api_other_scene) =
  ([ApiUpdate Scenes; ApiUpdate Lights], Ok None).
Proof.
  apply (no_circadian_scene_only_refreshes
           (example_switch false (Some true)) (Some example_reading)
           (example_bridge_with example_api_other_scene)
           example_api_other_scene example_lights eq_refl eq_refl).
  - discriminate.
  - reflexivity.
  - intros scene [<-|[]]. discriminate.
Defined.

(** ** What [update_bridge] calls *)

Lemma trace_update_api {A} (r : resource) (cache : A)
      (answer : update_outcome A) :
  trace (update_api r cache answer) = [ApiUpdate r].
Proof. destruct answer as [items|[| |]]; reflexivity. Qed.

(** A call of [update_bridge] is a refresh or a call of [update_scene]. *)
Lemma update_bridge_events (self : CircadianHueSwitch)
      (sensor : option CircadianValues) (bridge : HueBridge) (e : event) :
  In e (trace (update_bridge self sensor bridge)) ->
  e = ApiUpdate Scenes \/ e = ApiUpdate Lights \/
  exists a scenes lights sid,
    In e (trace (update_scene sensor a scenes lights sid)).
Proof.
  unfold update_bridge.
  destruct (_state self) as [[|]|]; try (intros []).
  destruct (api bridge) as [a|]; [|intros []].
  cbn [of_option]. rewrite bind_lift_ok. intros H.
  apply In_trace_bind in H. destruct H as [H|[[ok scenes] [_ H]]].
  { rewrite trace_update_api in H. destruct H as [<-|[]]. now left. }
  apply In_trace_bind in H. destruct H as [H|[[available lights] [_ H]]].
  { rewrite trace_update_api in H. destruct H as [<-|[]]. right. now left. }
  destruct available; cbn [negb] in H; [|destruct H].
  apply In_trace_bind in H. destruct H as [H|[_ [_ []]]].
  apply In_trace_for_each in H. destruct H as [sid [_ H]].
  right. right. now exists a, scenes, lights, sid.
Qed.

Lemma update_scene_without_sensor (a : Api) (scenes : list Scene)
      (lights : list Light) (sid : string) (e : event) :
  In e (trace (update_scene None a scenes lights sid)) ->
  e = Request GET (scene_path sid) None.
Proof.
  unfold update_scene.
  destruct (lookup_scene sid scenes) as [scene|]; [|intros []].
  cbn [of_option]. rewrite bind_lift_ok.
  destruct (String.eqb (scene_name scene) "Circadian"); [|intros []].
  cbn [negb]. rewrite bind_request_get, bind_emit.
  intros [H|H]; [now symmetry|]. exfalso.
  destruct (get_response a (scene_path sid)) as [detail|]; [|destruct H].
  rewrite bind_lift_ok in H.
  destruct (compare_lights lights (lightstates detail)) as [[cur chg]|];
    [|destruct H].
  rewrite bind_lift_ok in H.
  destruct (member_lights lights scene) as [members|]; [|destruct H].
  rewrite bind_lift_ok in H. destruct H.
Qed.

(** While the colour sensor is not published, [update_bridge] writes nothing
    to any bridge: among its calls there is no scene update and no
    [set_state], only refreshes and scene detail requests. *)
Theorem no_sensor_no_writes (self : CircadianHueSwitch)
        (bridge : HueBridge) :
  forallb (fun e => negb (is_write e))
          (trace (update_bridge self None bridge)) = true.
Proof.
  apply forallb_forall. intros e H.
  apply update_bridge_events in H.
  destruct H as [->|[->|[a [scenes [lights [sid H]]]]]]; try reflexivity.
  apply update_scene_without_sensor in H. now subst e.
Qed.

(** [update_api] catches a timeout and a bridge error and nothing else: with
    the switch on, any other exception of the scene refresh ends
    [update_bridge] before the light refresh is tried, and any other
    exception of the light refresh ends it before a scene is looked at; the
    exception is raised to the caller. *)
Theorem uncaught_refresh_failure_propagates
        (self : CircadianHueSwitch) (sensor : option CircadianValues)
        (bridge : HueBridge) (a : Api) :
  _state self = Some true ->
  api bridge = Some a ->
  (scenes_update a = UpdateFailed OtherException ->
   update_bridge self sensor bridge =
   ([ApiUpdate Scenes], Raise RequestError)) /\
  (scenes_update a <> UpdateFailed OtherException ->
   lights_update a = UpdateFailed OtherException ->
   update_bridge self sensor bridge =
   ([ApiUpdate Scenes; ApiUpdate Lights], Raise RequestError)).
Proof.
  intros Hon Hapi. unfold update_bridge. rewrite Hon, Hapi.
  cbn [of_option]. rewrite bind_lift_ok. split.
  - intros ->. reflexivity.
  - intros Hs ->.
    destruct (update_api_scenes_after a Hs) as [ok ->].
    now rewrite bind_step.
Qed.

Lemma uncaught_refresh_failure_propagates_witness :
  update_bridge (example_switch false (Some true)) (Some example_reading)
                example_broken_bridge =
    ([ApiUpdate Scenes], Raise RequestError) /\
  update_bridge (example_switch false (Some true)) (Some example_reading)
                (example_bridge_with
                   (example_api_answering (UpdateFailed TimeoutError)
                                          (UpdateFailed OtherException))) =
    ([ApiUpdate Scenes; ApiUpdate Lights], Raise RequestError).
Proof.
  split.
  - apply (proj1 (uncaught_refresh_failure_propagates
                    (example_switch false (Some true)) (Some example_reading)
                    example_broken_bridge _ eq_refl eq_refl)).
    reflexivity.
  - apply (proj2 (uncaught_refresh_failure_propagates
                    (example_switch false (Some true)) (Some example_reading)
                    (example_bridge_with
                       (example_api_answering (UpdateFailed TimeoutError)
                                              (UpdateFailed OtherException)))
                    _ eq_refl eq_refl)).
    + discriminate.
    + reflexivity.
Defined.

(** ** A failing [set_state] *)

Lemma In_failures (rs : list (result unit)) (e : exn) :
  In e (failures rs) <-> In (Raise e) rs.
Proof.
  induction rs as [|[[]|e'] rs IH]; cbn [failures In].
  - reflexivity.
  - rewrite IH. split; [now right | intros [H|H]; [discriminate | exact H]].
  - rewrite IH. split; (intros [H|H]; [left; congruence | now right]).
Qed.

Lemma outcome_gather_raise (arrival : nat) (coros : list (M unit)) (e : exn) :
  outcome (gather arrival coros) = Raise e ->
  exists c, In c coros /\ outcome c = Raise e.
Proof.
  unfold gather. cbn [outcome snd].
  destruct (failures (map outcome coros)) as [|e0 es] eqn:E; [discriminate|].
  intros H. injection H as He. subst e.
  assert (Hin : In (nth arrival (e0 :: es) e0)
                   (failures (map outcome coros))).
  { rewrite E. destruct (nth_in_or_default arrival (e0 :: es) e0) as [Hn|Hn].
    - exact Hn.
    - rewrite Hn. now left. }
  apply In_failures, in_map_iff in Hin. destruct Hin as [c [Hc Hin]].
  now exists c.
Qed.

Lemma outcome_gather_ok (arrival : nat) (coros : list (M unit)) :
  outcome (gather arrival coros) = Ok tt <->
  forall c, In c coros -> outcome c = Ok tt.
Proof.
  unfold gather. cbn [outcome snd]. split.
  - intros H c Hc.
    destruct (failures (map outcome coros)) as [|e0 es] eqn:E;
      [|discriminate].
    destruct (outcome c) as [[]|e] eqn:Ec; [reflexivity|]. exfalso.
    assert (Hin : In e (failures (map outcome coros))).
    { apply In_failures, in_map_iff. now exists c. }
    rewrite E in Hin. destruct Hin.
  - intros H.
    destruct (failures (map outcome coros)) as [|e0 es] eqn:E;
      [reflexivity|]. exfalso.
    assert (Hin : In e0 (failures (map outcome coros)))
      by (rewrite E; now left).
    apply In_failures, in_map_iff in Hin. destruct Hin as [c [Hc Hin]].
    rewrite (H c Hin) in Hc. discriminate.
Qed.

(** For an active scene whose update went through, every light of the
    computed state gets its [set_state] call even when the call of another
    light fails; [update_scene] returns normally exactly when no call fails,
    and otherwise raises the exception of one of the failing calls (the one
    that fails first in time). *)
Theorem failing_set_state_stops_no_other
        (sensor : option CircadianValues) (a : Api) (scenes : list Scene)
        (lights : list Light) (sid : string) (scene : Scene)
        (detail : SceneDetail) (brightness_changed : bool)
        (members : list Light) (state live : list (string * patch)) :
  lookup_scene sid scenes = Some scene ->
  scene_name scene = "Circadian" ->
  get_response a (scene_path sid) = Ok detail ->
  compare_lights lights (lightstates detail) = Ok (true, brightness_changed) ->
  member_lights lights scene = Ok members ->
  get_lightstate sensor members true = Ok state ->
  put_response a (scene_path sid) = Ok tt ->
  get_lightstate sensor members (negb brightness_changed) = Ok live ->
  trace (update_scene sensor a scenes lights sid) =
    [Request GET (scene_path sid) None;
     Request PUT (scene_path sid) (Some [("lightstates", state)])]
      ++ set_state_events live /\
  (outcome (update_scene sensor a scenes lights sid) = Ok tt <->
   forall item, In item live -> set_state_response a (fst item) = Ok tt) /\
  (forall e,
     outcome (update_scene sensor a scenes lights sid) = Raise e ->
     exists item,
       In item live /\ set_state_response a (fst item) = Raise e).
Proof.
  intros Hscene Hname Hget Hcmp Hmem Hstate Hput Hlive.
  assert (Hrun : update_scene sensor a scenes lights sid =
                 (Request GET (scene_path sid) None
                    :: Request PUT (scene_path sid)
                         (Some [("lightstates", state)])
                    :: set_state_events live,
                  outcome (gather (first_arrival a)
                                  (map (set_state_coro a) live)))).
  { unfold update_scene.
    rewrite Hscene. cbn [of_option]. rewrite bind_lift_ok.
    rewrite Hname. cbn [String.eqb Ascii.eqb Bool.eqb negb].
    rewrite bind_request_get, bind_emit.
    rewrite Hget, bind_lift_ok, Hcmp, bind_lift_ok, Hmem, bind_lift_ok.
    rewrite Hstate, bind_lift_ok. cbn [drop_none].
    rewrite bind_request_put, bind_emit. cbn [trace outcome fst snd].
    rewrite Hput, bind_lift_ok, Hlive, bind_lift_ok.
    rewrite (map_result_ok _ (set_state_coro a)).
    - rewrite bind_lift_ok, <- (set_state_coros_trace a live). reflexivity.
    - intros [id d] Hin. cbn [fst snd].
      destruct (get_lightstate_some _ _ _ _ Hlive) as [reading [-> Hall]].
      rewrite Hall in Hlive. inversion Hlive as [Heq]. rewrite <- Heq in Hin.
      apply fill_out_In in Hin. destruct Hin as [[]|[l [Hl [Hid _]]]].
      rewrite <- Hid, (member_lights_lookup _ _ _ Hmem _ Hl).
      reflexivity. }
  rewrite Hrun. cbn [trace outcome fst snd]. split; [|split].
  - reflexivity.
  - change (snd (gather (first_arrival a) (map (set_state_coro a) live)))
      with (outcome (gather (first_arrival a) (map (set_state_coro a) live))).
    rewrite outcome_gather_ok. split.
    + intros H item Hin. specialize (H _ (in_map (set_state_coro a) _ _ Hin)).
      unfold set_state_coro in H. rewrite bind_emit in H. exact H.
    + intros H c Hc. apply in_map_iff in Hc. destruct Hc as [item [<- Hin]].
      unfold set_state_coro. rewrite bind_emit. exact (H _ Hin).
  - intros e H.
    change (snd (gather (first_arrival a) (map (set_state_coro a) live)))
      with (outcome (gather (first_arrival a) (map (set_state_coro a) live)))
      in H.
    apply outcome_gather_raise in H. destruct H as [c [Hc H]].
    apply in_map_iff in Hc. destruct Hc as [item [<- Hin]].
    exists item. split; [assumption|].
    unfold set_state_coro in H. rewrite bind_emit in H. exact H.
Qed.

Lemma failing_set_state_stops_no_other_witness :
  trace (update_scene (Some example_reading) example_api_failing_light
                      [example_scene] example_lights "s1") =
    [Request GET (scene_path "s1") None;
     Request PUT (scene_path "s1")
       (Some [("lightstates",
               [("A", [("on", VBool true); ("bri", VInt 153);
                       ("transitiontime", VInt 20)]);
                ("B", [("on", VBool true); ("bri", VInt 153);
                       ("transitiontime", VInt 20)])])])]
      ++ set_state_events
           [("A", [("on", VBool true); ("transitiontime", VInt 20)]);
            ("B", [("on", VBool true); ("transitiontime", VInt 20)])] /\
  outcome (update_scene (Some example_reading) example_api_failing_light
                        [example_scene] example_lights "s1") =
    Raise RequestError.
Proof.
  destruct (failing_set_state_stops_no_other
              (Some example_reading) example_api_failing_light
              [example_scene] example_lights "s1" example_scene
              {| lightstates := example_lightstates |} true example_lights
              [("A", [("on", VBool true); ("bri", VInt 153);
                      ("transitiontime", VInt 20)]);
               ("B", [("on", VBool true); ("bri", VInt 153);
                      ("transitiontime", VInt 20)])]
              [("A", [("on", VBool true); ("transitiontime", VInt 20)]);
               ("B", [("on", VBool true); ("transitiontime", VInt 20)])]
              eq_refl eq_refl eq_refl eq_refl eq_refl eq_refl eq_refl
              eq_refl) as [H _].
  split; [exact H | reflexivity].
Defined.

(** ** Writes happen only after the reads *)

Lemma member_lights_ids (lights : list Light) (scene : Scene)
      (members : list Light) :
  member_lights lights scene = Ok members ->
  map light_id members = scene_lights scene.
Proof.
  unfold member_lights. revert members.
  induction (scene_lights scene) as [|id ids IH]; cbn [map_result];
    intros members E.
  - now inversion E.
  - destruct (lookup_light id lights) as [l|] eqn:El; [|discriminate].
    cbn [of_option rbind] in E.
    destruct (map_result _ ids) as [ms|]; [|discriminate].
    cbn [rbind] in E. inversion E. cbn [map].
    now rewrite (IH ms eq_refl), (lookup_light_id _ _ _ El).
Qed.

(** A scene is rewritten only after its detail was fetched, the comparison
    went through and all its member lights were found in the cache, and then
    with the state computed (brightness included) for those member lights:
    when any of these steps raises, the scene on the bridge is left as it
    is. *)
Theorem scene_rewritten_only_with_computed_state
        (sensor : option CircadianValues) (a : Api) (scenes : list Scene)
        (lights : list Light) (sid : string)
        (p : string) (json : option payload) :
  In (Request PUT p json) (trace (update_scene sensor a scenes lights sid)) ->
  exists scene detail flags members state,
    lookup_scene sid scenes = Some scene /\
    scene_name scene = "Circadian" /\
    get_response a (scene_path sid) = Ok detail /\
    compare_lights lights (lightstates detail) = Ok flags /\
    member_lights lights scene = Ok members /\
    get_lightstate sensor members true = Ok state /\
    p = scene_path sid /\
    json = Some [("lightstates", state)].
Proof.
  unfold update_scene.
  destruct (lookup_scene sid scenes) as [scene|]; [|intros []].
  cbn [of_option]. rewrite bind_lift_ok.
  destruct (String.eqb (scene_name scene) "Circadian") eqn:Ename;
    [|intros []].
  apply String.eqb_eq in Ename. cbn [negb].
  rewrite bind_request_get, bind_emit.
  intros [H|H]; [discriminate|].
  destruct (get_response a (scene_path sid)) as [detail|]; [|destruct H].
  rewrite bind_lift_ok in H.
  destruct (compare_lights lights (lightstates detail)) as [[cur chg]|]
    eqn:Ecmp; [|destruct H].
  rewrite bind_lift_ok in H.
  destruct (member_lights lights scene) as [members|] eqn:Emem;
    [|destruct H].
  rewrite bind_lift_ok in H.
  destruct (get_lightstate sensor members true) as [state|] eqn:Est;
    [|destruct H].
  rewrite bind_lift_ok, bind_request_put, bind_emit in H.
  destruct H as [H|H].
  - inversion H. subst p json.
    exists scene, detail, (cur, chg), members, state. repeat split; auto.
  - exfalso.
    destruct (put_response a (scene_path sid)) as [[]|]; [|destruct H].
    rewrite bind_lift_ok in H.
    destruct cur; [|destruct H].
    destruct (get_lightstate sensor members (negb chg)) as [live|];
      [|destruct H].
    rewrite bind_lift_ok in H.
    match type of H with
    | In _ (trace (bind (lift ?r) _)) => destruct r as [coros|] eqn:Ec
    end; [|destruct H].
    rewrite bind_lift_ok in H.
    exact (set_state_coros_only_set_state _ _ _ _ Ec _ _ _ _ H).
Qed.

Lemma scene_rewritten_only_with_computed_state_witness :
  exists scene detail flags members state,
    lookup_scene "s1" [example_scene] = Some scene /\
    scene_name scene = "Circadian" /\
    get_response example_api (scene_path "s1") = Ok detail /\
    compare_lights example_lights (lightstates detail) = Ok flags /\
    member_lights example_lights scene = Ok members /\
    get_lightstate (Some example_reading) members true = Ok state /\
    scene_path "s1" = scene_path "s1" /\
    Some [("lightstates",
           [("A", [("on", VBool true); ("bri", VInt 153);
                   ("transitiontime", VInt 20)]);
            ("B", [("on", VBool true); ("bri", VInt 153);
                   ("transitiontime", VInt 20)])])] =
    Some [("lightstates", state)].
Proof.
  apply (scene_rewritten_only_with_computed_state
           (Some example_reading) example_api [example_scene] example_lights
           "s1").
  cbn. right. left. reflexivity.
Defined.

(** [set_state] is called only for a scene that was judged active and whose
    update returned, only on lights that are members of that scene, and only
    with the patch computed for that light with brightness left out exactly
    when a brightness change was detected. *)
Theorem set_state_only_for_active_members
        (sensor : option CircadianValues) (a : Api) (scenes : list Scene)
        (lights : list Light) (sid : string) (id : string) (d : patch) :
  In (SetState id d) (trace (update_scene sensor a scenes lights sid)) ->
  exists scene detail brightness_changed members live,
    lookup_scene sid scenes = Some scene /\
    scene_name scene = "Circadian" /\
    get_response a (scene_path sid) = Ok detail /\
    compare_lights lights (lightstates detail) =
      Ok (true, brightness_changed) /\
    member_lights lights scene = Ok members /\
    put_response a (scene_path sid) = Ok tt /\
    get_lightstate sensor members (negb brightness_changed) = Ok live /\
    In (id, d) live /\
    In id (scene_lights scene).
Proof.
  unfold update_scene.
  destruct (lookup_scene sid scenes) as [scene|]; [|intros []].
  cbn [of_option]. rewrite bind_lift_ok.
  destruct (String.eqb (scene_name scene) "Circadian") eqn:Ename;
    [|intros []].
  apply String.eqb_eq in Ename. cbn [negb].
  rewrite bind_request_get, bind_emit.
  intros [H|H]; [discriminate|].
  destruct (get_response a (scene_path sid)) as [detail|]; [|destruct H].
  rewrite bind_lift_ok in H.
  destruct (compare_lights lights (lightstates detail)) as [[cur chg]|]
    eqn:Ecmp; [|destruct H].
  rewrite bind_lift_ok in H.
  destruct (member_lights lights scene) as [members|] eqn:Emem;
    [|destruct H].
  rewrite bind_lift_ok in H.
  destruct (get_lightstate sensor members true) as [state|] eqn:Est;
    [|destruct H].
  rewrite bind_lift_ok, bind_request_put, bind_emit in H.
  destruct H as [H|H]; [discriminate|].
  destruct (put_response a (scene_path sid)) as [[]|] eqn:Eput;
    [|destruct H].
  rewrite bind_lift_ok in H.
  destruct cur; [|destruct H].
  destruct (get_lightstate sensor members (negb chg)) as [live|] eqn:Elive;
    [|destruct H].
  rewrite bind_lift_ok in H.
  match type of H with
  | In _ (trace (bind (lift ?r) _)) => destruct r as [coros|] eqn:Ec
  end; [|destruct H].
  rewrite bind_lift_ok, trace_gather in H.
  apply in_flat_map in H. destruct H as [c [Hc H]].
  destruct (map_result_In _ _ _ Ec _ Hc) as [[id' d'] [Hitem Hcoro]].
  cbn [fst snd] in Hcoro.
  destruct (lookup_light id' lights) as [light|] eqn:El; [|discriminate].
  cbn [of_option rbind] in Hcoro. inversion Hcoro. subst c.
  unfold set_state in H. rewrite bind_emit in H.
  destruct H as [H|H].
  - inversion H. subst d'. rewrite (lookup_light_id _ _ _ El) in *. subst id'.
    exists scene, detail, chg, members, live. repeat split; auto.
    destruct (get_lightstate_some _ _ _ _ Elive) as [reading [-> Hall]].
    rewrite Hall in Elive. inversion Elive as [Heq]. rewrite <- Heq in Hitem.
    apply fill_out_In in Hitem. destruct Hitem as [[]|[l [Hl [Hid _]]]].
    rewrite <- (member_lights_ids _ _ _ Emem), <- Hid. now apply in_map.
  - exfalso. destruct (set_state_response a (light_id light)); exact H.
Qed.

Lemma set_state_only_for_active_members_witness :
  exists scene detail brightness_changed members live,
    lookup_scene "s1" [example_scene] = Some scene /\
    scene_name scene = "Circadian" /\
    get_response example_api (scene_path "s1") = Ok detail /\
    compare_lights example_lights (lightstates detail) =
      Ok (true, brightness_changed) /\
    member_lights example_lights scene = Ok members /\
    put_response example_api (scene_path "s1") = Ok tt /\
    get_lightstate (Some example_reading) members (negb brightness_changed)
      = Ok live /\
    In ("B", [("on", VBool true); ("transitiontime", VInt 20)]) live /\
    In "B" (scene_lights scene).
Proof.
  apply (set_state_only_for_active_members
           (Some example_reading) example_api [example_scene] example_lights
           "s1").
  cbn. right. right. right. left. reflexivity.
Defined.
